(** * Premier-League table prediction: a shallow embedding of
    [pl_2025_26_prediction.py] and the properties of its pipeline.

    Conventions of the embedding.
    - A pandas DataFrame is a list of row records, in row order.
    - Python exceptions are the [Raise] branch of [result]; the exception
      class is kept as an [exn] tag.
    - Python [int] is [Z]; [astype(int)] is a checked conversion to int64.
    - float64 values (column means, probabilities, expected positions) are
      exact rationals [Q]; rounding is not modelled.
    - Team names and score texts are ASCII strings.
    - Fitting the classifier ([build_and_train_model]) is scikit-learn's
      business; the fitted pipeline enters [predict_league_table] as a
      value that yields class probabilities and exposes [classes_]. *)

From Stdlib Require Import ZArith QArith Lqa List String Ascii Lia Permutation Sorted Bool.
From stdpp Require Import gmap strings.

Local Open Scope string_scope.
Local Open Scope nat_scope.
Local Open Scope list_scope.

(** ** Exceptions *)

Inductive exn : Type :=
  | KeyError | ValueError | TypeError | IndexError | OverflowError | FileNotFoundError
  | AttributeError.

Inductive result (A : Type) : Type :=
  | Ok (a : A)
  | Raise (e : exn).
Arguments Ok {A} a.
Arguments Raise {A} e.

#[global] Instance result_bind : MBind result := fun A B k r =>
  match r with
  | Ok a => k a
  | Raise e => Raise e
  end.

(** [[f(x) for x in l]] where [f] may raise: the first exception wins. *)
Fixpoint mapM {A B : Type} (f : A -> result B) (l : list A) : result (list B) :=
  match l with
  | [] => Ok []
  | x :: l' => y ← f x; ys ← mapM f l'; Ok (y :: ys)
  end.

(** ** Match Parser *)

Module Parser.

(** [str.split("-")]: always at least one segment. *)
Fixpoint split_dash (s : string) : list string :=
  match s with
  | EmptyString => [EmptyString]
  | String c s' =>
      if Ascii.eqb c "-" then EmptyString :: split_dash s'
      else match split_dash s' with
           | h :: t => String c h :: t
           | [] => [String c EmptyString]
           end
  end.

(** Python's [int(str)], base 10, on an ASCII text: surrounding whitespace
    is stripped, an optional sign follows, then digits, single underscores
    allowed between digits.  The whitespace of [int] on such a text is the
    tab, the line feed, the vertical tab, the form feed, the carriage return
    and the blank (codes 9 to 13 and 32); the separators of codes 28 to 31,
    which [str.strip] removes, are not accepted by [int]. *)
Definition is_space (c : ascii) : bool :=
  let n := nat_of_ascii c in
  ((9 <=? n) && (n <=? 13)) || (n =? 32).

Definition digit_val (c : ascii) : option Z :=
  let n := nat_of_ascii c in
  if (48 <=? n) && (n <=? 57) then Some (Z.of_nat (n - 48)) else None.

Fixpoint lstrip (s : string) : string :=
  match s with
  | String c s' => if is_space c then lstrip s' else s
  | EmptyString => EmptyString
  end.

Fixpoint rstrip (s : string) : string :=
  match s with
  | String c s' =>
      match rstrip s' with
      | EmptyString => if is_space c then EmptyString else String c EmptyString
      | t => String c t
      end
  | EmptyString => EmptyString
  end.

Definition strip (s : string) : string := rstrip (lstrip s).

Fixpoint digits_from (acc : Z) (after_digit : bool) (s : string) : option Z :=
  match s with
  | EmptyString => if after_digit then Some acc else None
  | String c s' =>
      if Ascii.eqb c "_" then
        if after_digit then digits_from acc false s' else None
      else match digit_val c with
           | Some d => digits_from (10 * acc + d)%Z true s'
           | None => None
           end
  end.

Definition py_int (s : string) : option Z :=
  match strip s with
  | String c r =>
      if Ascii.eqb c "+" then digits_from 0 false r
      else if Ascii.eqb c "-" then option_map Z.opp (digits_from 0 false r)
      else digits_from 0 false (String c r)
  | EmptyString => None
  end.

(** One raw season row: the columns ["Team 1"], ["Team 2"] and ["FT"].
    A missing score cell (NaN in the object column) is [None]. *)
Record RawRow : Type := mkRaw {
  raw_team1 : string;
  raw_team2 : string;
  raw_FT : option string
}.

(** The parsed table: the raw columns plus [home_goals] and [away_goals]. *)
Record Match : Type := mkMatch {
  team1 : string;
  team2 : string;
  FT : option string;
  home_goals : Z;
  away_goals : Z
}.

(** Cells of the frame returned by [.str.split("-", expand=True)]. *)
Inductive cell : Type :=
  | CStr (s : string)
  | CNone
  | CNaN.

Definition split_cell (c : option string) : list cell :=
  match c with
  | Some s => map CStr (split_dash s)
  | None => [CNaN]
  end.

Definition max_len (parts : list (list cell)) : nat :=
  fold_right (fun p m => Nat.max (length p) m) 0 parts.

(** Row of the expanded frame: a NaN row is NaN in every column, a short
    row is padded with [None]. *)
Definition pad (width : nat) (p : list cell) : list cell :=
  match p with
  | CNaN :: _ => repeat CNaN width
  | _ => p ++ repeat CNone (width - length p)
  end.

(** [df["FT"].str.split("-", expand=True)]: the width and the rows. *)
Definition str_split_expand (col : list (option string)) : nat * list (list cell) :=
  let parts := map split_cell col in
  let width := max_len parts in
  (width, map (pad width) parts).

(** [goals[k]]: [KeyError] when the expanded frame has no column [k]. *)
Definition getcol (goals : nat * list (list cell)) (k : nat) : result (list cell) :=
  if k <? fst goals then Ok (map (fun r => nth k r CNone) (snd goals))
  else Raise KeyError.

Definition int64_min : Z := (- 2 ^ 63)%Z.
Definition int64_max : Z := (2 ^ 63 - 1)%Z.

(** One element of [.astype(int)] on an object column. *)
Definition astype_int_cell (c : cell) : result Z :=
  match c with
  | CStr s =>
      match py_int s with
      | Some z =>
          if (int64_min <=? z)%Z && (z <=? int64_max)%Z then Ok z
          else Raise OverflowError
      | None => Raise ValueError
      end
  | CNone => Raise TypeError
  | CNaN => Raise ValueError
  end.

Definition astype_int (col : list cell) : result (list Z) :=
  mapM astype_int_cell col.

Definition augment (r : RawRow) (hg ag : Z) : Match :=
  mkMatch (raw_team1 r) (raw_team2 r) (raw_FT r) hg ag.

Fixpoint assign_goals (df : list RawRow) (hs aws : list Z) : list Match :=
  match df, hs, aws with
  | r :: df', h :: hs', a :: aws' => augment r h a :: assign_goals df' hs' aws'
  | _, _, _ => []
  end.

(** [df["FT"].str]: the accessor is refused with [AttributeError] on a
    column that does not hold strings.  The [FT] column has the dtype that
    pandas infers from its cells, in [read_csv] as in the [DataFrame]
    constructor: object when it has no row or when some cell is a string,
    float64 when it has rows and every cell is missing. *)
Definition str_accessor (col : list (option string)) : result (list (option string)) :=
  match col with
  | [] => Ok col
  | _ :: _ =>
      if existsb (fun c => match c with Some _ => true | None => false end) col
      then Ok col else Raise AttributeError
  end.

Definition parse_match_results (df : list RawRow) : result (list Match) :=
  FT_str ← str_accessor (map raw_FT df);
  let goals := str_split_expand FT_str in
  c0 ← getcol goals 0;
  hs ← astype_int c0;
  c1 ← getcol goals 1;
  aws ← astype_int c1;
  Ok (assign_goals df hs aws).

End Parser.

(** ** [DataFrame.sort_values] on several keys

    With more than one key pandas sorts through a lexicographic, stable
    indexer: rows whose keys are all equal keep their relative order, in
    ascending and in descending direction alike.  [leb x y] says that [x]
    may stand before [y]. *)

Section SortValues.
Context {A : Type} (leb : A -> A -> bool).

Fixpoint insert_row (x : A) (l : list A) : list A :=
  match l with
  | [] => [x]
  | y :: l' => if leb x y then x :: l else y :: insert_row x l'
  end.

Definition sort_values (l : list A) : list A := fold_right insert_row [] l.
End SortValues.

(** Lexicographic order on the key [(points, goal_diff, goals_for)]. *)
Definition lex_leb (a b : Z * Z * Z) : bool :=
  let '(a1, a2, a3) := a in
  let '(b1, b2, b3) := b in
  ((a1 <? b1) || ((a1 =? b1) && ((a2 <? b2) || ((a2 =? b2) && (a3 <=? b3)))))%Z.

Definition sum_Z (l : list Z) : Z := fold_right Z.add 0%Z l.

(** ** Season Summarizer *)

Module Summarizer.
Import Parser.

Record Stats : Type := mkStats {
  points : Z;
  wins : Z;
  draws : Z;
  losses : Z;
  goals_for : Z;
  goals_against : Z
}.

(** The [defaultdict] factory. *)
Definition default_stats : Stats := mkStats 0 0 0 0 0 0.

(** [teams]: a Python dict, iterated in insertion order. *)
Definition teams_dict : Type := list (string * Stats).

(** [teams[k][field] += n]: a missing key is first inserted, at the end,
    with the default statistics. *)
Fixpoint update (teams : teams_dict) (k : string) (f : Stats -> Stats) : teams_dict :=
  match teams with
  | [] => [(k, f default_stats)]
  | (k', s) :: rest =>
      if String.eqb k k' then (k', f s) :: rest
      else (k', s) :: update rest k f
  end.

Definition add_points (n : Z) (s : Stats) : Stats :=
  mkStats (points s + n) (wins s) (draws s) (losses s) (goals_for s) (goals_against s).
Definition add_wins (n : Z) (s : Stats) : Stats :=
  mkStats (points s) (wins s + n) (draws s) (losses s) (goals_for s) (goals_against s).
Definition add_draws (n : Z) (s : Stats) : Stats :=
  mkStats (points s) (wins s) (draws s + n) (losses s) (goals_for s) (goals_against s).
Definition add_losses (n : Z) (s : Stats) : Stats :=
  mkStats (points s) (wins s) (draws s) (losses s + n) (goals_for s) (goals_against s).
Definition add_goals_for (n : Z) (s : Stats) : Stats :=
  mkStats (points s) (wins s) (draws s) (losses s) (goals_for s + n) (goals_against s).
Definition add_goals_against (n : Z) (s : Stats) : Stats :=
  mkStats (points s) (wins s) (draws s) (losses s) (goals_for s) (goals_against s + n).

(** The body of the loop over [matches.iterrows()]. *)
Definition record_match (teams : teams_dict) (row : Match) : teams_dict :=
  let home := team1 row in
  let away := team2 row in
  let hg := home_goals row in
  let ag := away_goals row in
  let teams := update teams home (add_goals_for hg) in
  let teams := update teams home (add_goals_against ag) in
  let teams := update teams away (add_goals_for ag) in
  let teams := update teams away (add_goals_against hg) in
  if (hg >? ag)%Z then
    let teams := update teams home (add_points 3) in
    let teams := update teams home (add_wins 1) in
    update teams away (add_losses 1)
  else if (hg <? ag)%Z then
    let teams := update teams away (add_points 3) in
    let teams := update teams away (add_wins 1) in
    update teams home (add_losses 1)
  else
    let teams := update teams home (add_points 1) in
    let teams := update teams away (add_points 1) in
    let teams := update teams home (add_draws 1) in
    update teams away (add_draws 1).

(** One entry of [data]: the six statistics and [goal_diff]. *)
Record SummaryRow : Type := mkRow {
  team : string;
  stats : Stats;
  goal_diff : Z
}.

(** A row of the returned summary, with its [position]. *)
Record Standing : Type := mkStanding {
  row :> SummaryRow;
  position : Z
}.

Definition build_row (entry : string * Stats) : SummaryRow :=
  let '(t, s) := entry in mkRow t s (goals_for s - goals_against s)%Z.

Definition sort_key (r : SummaryRow) : Z * Z * Z :=
  (points (stats r), goal_diff r, goals_for (stats r)).

(** [ascending=[False, False, False]]. *)
Definition descending (a b : SummaryRow) : bool := lex_leb (sort_key b) (sort_key a).

(** [reset_index(drop=True)] followed by [position = index + 1];
    [i] is the index of the first row. *)
Fixpoint with_position (i : nat) (l : list SummaryRow) : list Standing :=
  match l with
  | [] => []
  | r :: l' => mkStanding r (Z.of_nat i + 1) :: with_position (S i) l'
  end.

(** On an empty match table [data] is empty, [pd.DataFrame([])] has no
    columns, and [sort_values] raises [KeyError] on ["points"]. *)
Definition summarise_season (matches : list Match) : result (list Standing) :=
  let teams := fold_left record_match matches [] in
  let data := map build_row teams in
  match data with
  | [] => Raise KeyError
  | _ :: _ => Ok (with_position 0 (sort_values descending data))
  end.

End Summarizer.

(** ** Training Set Builder *)

Module Builder.
Import Parser Summarizer.

(** The feature columns, in the order the source lists them. *)
Definition feature_cols : list (Standing -> Z) :=
  [ fun r : Standing => points (stats r);
    fun r : Standing => wins (stats r);
    fun r : Standing => draws (stats r);
    fun r : Standing => losses (stats r);
    fun r : Standing => goals_for (stats r);
    fun r : Standing => goals_against (stats r);
    fun r : Standing => goal_diff r ].

(** Column mean.  pandas gives NaN on an empty column; every frame the
    mean is taken of here is the head of a non-empty summary
    ([summarise_season] raises rather than return an empty one), so the
    value of the empty case is never observed. *)
Definition mean (col : list Z) : Q :=
  inject_Z (sum_Z col) / inject_Z (Z.of_nat (length col)).

(** [summary.loc[team][feature_cols].to_dict()] *)
Definition real_features (r : Standing) : list Q :=
  map (fun c => inject_Z (c r)) feature_cols.

(** [ascending=[True, True, True]] then [.head(3)]. *)
Definition ascending (a b : Standing) : bool := lex_leb (sort_key a) (sort_key b).

Definition bottom_three (summary : list Standing) : list Standing :=
  firstn 3 (sort_values ascending summary).

(** [{k: bottom_three.mean()[k] for k in feature_cols}] *)
Definition default_features (bottom : list Standing) : list Q :=
  map (fun c => mean (map c bottom)) feature_cols.

(** [team in summary.index] *)
Definition in_index (summary : list Standing) (t : string) : bool :=
  existsb (fun r : Standing => String.eqb t (team r)) summary.

(** [summary.loc[team]] *)
Definition loc (summary : list Standing) (t : string) : result Standing :=
  match find (fun r : Standing => String.eqb t (team r)) summary with
  | Some r => Ok r
  | None => Raise KeyError
  end.

(** The inner loop over [curr_summary.iterrows()]: one pair
    (features, target) per row. *)
Definition season_pair (prev_summary curr_summary : list Standing)
  : result (list (list Q * Z)) :=
  let default_features := default_features (bottom_three prev_summary) in
  mapM (fun row : Standing =>
          feats ← (if in_index prev_summary (team row)
                    then r ← loc prev_summary (team row); Ok (real_features r)
                    else Ok default_features);
          Ok (feats, position row))
       curr_summary.

(** The file system seen through [pd.read_csv]. *)
Definition reader : Type := string -> result (list RawRow).

Definition season_summary (read_csv : reader) (file_path : string)
  : result (list Standing) :=
  raw ← read_csv file_path;
  parsed ← parse_match_results raw;
  summarise_season parsed.

(** First loop: [season_summaries[file_path] = summary]. *)
Fixpoint load_seasons (read_csv : reader) (season_files : list string)
    (season_summaries : gmap string (list Standing))
  : result (gmap string (list Standing)) :=
  match season_files with
  | [] => Ok season_summaries
  | file_path :: rest =>
      summary ← season_summary read_csv file_path;
      load_seasons read_csv rest (<[file_path := summary]> season_summaries)
  end.

Definition getitem (season_summaries : gmap string (list Standing)) (k : string)
  : result (list Standing) :=
  match season_summaries !! k with
  | Some v => Ok v
  | None => Raise KeyError
  end.

Definition index (files : list string) (i : nat) : result string :=
  match files !! i with
  | Some f => Ok f
  | None => Raise IndexError
  end.

(** Second loop, over [range(len(files_sorted) - 1)]; the accumulators are
    [feature_rows] and [target_rows]. *)
Fixpoint training_loop (season_summaries : gmap string (list Standing))
    (files_sorted : list string) (range : list nat)
    (feature_rows : list (list Q)) (target_rows : list Z)
  : result (list (list Q) * list Z) :=
  match range with
  | [] => Ok (feature_rows, target_rows)
  | i :: range' =>
      f_prev ← index files_sorted i;
      prev_summary ← getitem season_summaries f_prev;
      f_curr ← index files_sorted (i + 1);
      curr_summary ← getitem season_summaries f_curr;
      examples ← season_pair prev_summary curr_summary;
      training_loop season_summaries files_sorted range'
        (feature_rows ++ map fst examples) (target_rows ++ map snd examples)
  end.

Definition promoted : list string := ["Leeds United"; "Burnley"; "Sunderland"].

(** [latest_features_rows]: the rows of the last summary, then the promoted
    names that are not among them. *)
Definition latest_features (last_summary : list Standing)
  : result (list (string * list Q)) :=
  let default_features_last := default_features (bottom_three last_summary) in
  let latest_teams := map (fun r : Standing => team r) last_summary in
  known ← mapM (fun t => r ← loc last_summary t; Ok (t, real_features r)) latest_teams;
  Ok (known ++
      map (fun t => (t, default_features_last))
          (List.filter (fun t => negb (existsb (String.eqb t) latest_teams)) promoted)).

(** [files_sorted[-1]] *)
Definition last_file (files : list string) : result string :=
  match last files with
  | Some f => Ok f
  | None => Raise IndexError
  end.

Definition prepare_training_data (read_csv : reader) (season_files : list string)
  : result (list (list Q) * list Z * list (string * list Q)) :=
  season_summaries ← load_seasons read_csv season_files ∅;
  let files_sorted := season_files in
  '(X_train, y_train) ←
     training_loop season_summaries files_sorted
       (seq 0 (length files_sorted - 1)) [] [];
  f_last ← last_file files_sorted;
  last_summary ← getitem season_summaries f_last;
  latest_features_df ← latest_features last_summary;
  Ok (X_train, y_train, latest_features_df).

End Builder.

(** ** Ranking Model *)

Module Model.

(** The fitted pipeline as [predict_league_table] uses it: the class
    probabilities of one feature row (scaler and forest act row by row)
    and the forest's [classes_].  [predict_proba] is taken where
    scikit-learn returns; the exceptions it raises on other feature tables
    (no row, a missing value, another number of columns than it was fitted
    on) are not part of the embedding, so the properties of
    [predict_league_table] are stated for the runs that return. *)
Record Pipeline : Type := mkPipeline {
  predict_proba : list Q -> list Q;
  classes_ : list Z
}.

(** One row of [probas.dot(classes)]; numpy raises [ValueError] when the
    two lengths differ. *)
Fixpoint dot (p : list Q) (classes : list Z) : Q :=
  match p, classes with
  | x :: p', c :: classes' => x * inject_Z c + dot p' classes'
  | _, _ => 0
  end.

Definition expected_position (p : list Q) (classes : list Z) : result Q :=
  if length p =? length classes then Ok (dot p classes) else Raise ValueError.

Record Prediction : Type := mkPrediction {
  predicted_rank : Z;
  pteam : string;
  expected : Q
}.

(** [reset_index(drop=True)] followed by [predicted_rank = index + 1]. *)
Fixpoint with_rank (i : nat) (l : list (string * Q)) : list Prediction :=
  match l with
  | [] => []
  | (t, e) :: l' => mkPrediction (Z.of_nat i + 1) t e :: with_rank (S i) l'
  end.

(** [sort_values("expected_position")] is a single-key sort with pandas'
    default [kind="quicksort"]; the order it leaves among rows of equal key
    is decided by numpy's sorting routine, not by this program.  The sort is
    therefore an argument of the embedding. *)
Definition sorter : Type := list (string * Q) -> list (string * Q).

Definition predict_league_table (sort_values_quick : sorter) (model : Pipeline)
    (features : list (string * list Q)) : result (list Prediction) :=
  let classes := classes_ model in
  exp_positions ←
    mapM (fun f => expected_position (predict_proba model (snd f)) classes) features;
  let prediction_df := combine (map fst features) exp_positions in
  Ok (with_rank 0 (sort_values_quick prediction_df)).

End Model.

(** ** Vocabulary of the properties *)

Module Vocabulary.
Import Parser Summarizer Builder Model.

(** Matches with unequal, respectively equal, goal counts. *)
Definition decisive (ms : list Match) : nat :=
  length (List.filter (fun m => negb (home_goals m =? away_goals m)%Z) ms).
Definition drawn (ms : list Match) : nat :=
  length (List.filter (fun m => (home_goals m =? away_goals m)%Z) ms).

(** Sum of the [points] column of a summary. *)
Definition total_points (tbl : list Standing) : Z :=
  sum_Z (map (fun r : Standing => points (stats r)) tbl).

(** Appearances of a team as home side, as away side, and the matches it
    appears in on either side. *)
Definition home_matches (t : string) (ms : list Match) : nat :=
  length (List.filter (fun m => String.eqb t (team1 m)) ms).
Definition away_matches (t : string) (ms : list Match) : nat :=
  length (List.filter (fun m => String.eqb t (team2 m)) ms).
Definition matches_with (t : string) (ms : list Match) : nat :=
  length (List.filter (fun m => String.eqb t (team1 m) || String.eqb t (team2 m)) ms).

(** Reading [teams[t]]. *)
Definition stats_of (teams : teams_dict) (t : string) : Stats :=
  match find (fun e => String.eqb t (fst e)) teams with
  | Some e => snd e
  | None => default_stats
  end.

Definition total (f : Stats -> Z) (teams : teams_dict) : Z :=
  sum_Z (map (fun e => f (snd e)) teams).

(** Wins + draws + losses, and the points not explained by wins and draws. *)
Definition wdl (s : Stats) : Z := (wins s + draws s + losses s)%Z.
Definition surplus (s : Stats) : Z := (points s - 3 * wins s - draws s)%Z.

(** Probability vectors: non-negative entries that sum to one. *)
Definition sum_Q (p : list Q) : Q := fold_right Qplus 0%Q p.
Definition distribution (p : list Q) : Prop :=
  Forall (fun x => (0 <= x)%Q) p /\ (sum_Q p == 1)%Q.

Definition min_label (classes : list Z) : Z :=
  fold_right Z.min (hd 0%Z classes) classes.
Definition max_label (classes : list Z) : Z :=
  fold_right Z.max (hd 0%Z classes) classes.

(** What pandas promises of [sort_values] whatever the [kind]: the rows
    are rearranged so that the key ascends. *)
Definition sorts_by_expected (sort : sorter) : Prop :=
  forall l, sort l ≡ₚ l /\ StronglySorted (fun a b => (snd a <= snd b)%Q) (sort l).

(** A sort that keeps that promise: insertion by the key. *)
Definition stable_sort : sorter :=
  sort_values (fun a b => Qle_bool (snd a) (snd b)).

(** The text [s] converts to the int64 [z]. *)
Definition int64_of (s : string) (z : Z) : Prop :=
  py_int s = Some z /\ (int64_min <= z <= int64_max)%Z.

(** The score of a raw row is present, splits on the dash into at least two
    segments, and the first two convert to [hg] and [ag]. *)
Definition score_goals (r : RawRow) (hg ag : Z) : Prop :=
  exists s a b rest,
    raw_FT r = Some s /\ split_dash s = a :: b :: rest /\
    int64_of a hg /\ int64_of b ag.






(** Cell [k] of the row of the expanded frame that belongs to [r]. *)
Definition cell_at (width k : nat) (r : RawRow) : cell :=
  nth k (pad width (split_cell (raw_FT r))) CNone.

Definition split_width (df : list RawRow) : nat :=
  max_len (map split_cell (map raw_FT df)).

(** The examples of one season pair: what the inner loop returns. *)
Definition example_of (prev : list Standing) (row : Standing) (ex : list Q * Z) : Prop :=
  snd ex = position row /\
  (forall p : Standing, p ∈ prev -> team p = team row -> fst ex = real_features p) /\
  ((forall p : Standing, p ∈ prev -> team p <> team row) ->
   fst ex = default_features (bottom_three prev)).

(** The examples of the season pair [(i, i+1)] of [files]. *)
Definition pair_block (read_csv : reader) (files : list string) (i : nat)
    (block : list (list Q * Z)) : Prop :=
  exists f_prev f_curr prev curr,
    files !! i = Some f_prev /\ files !! S i = Some f_curr /\
    season_summary read_csv f_prev = Ok prev /\
    season_summary read_csv f_curr = Ok curr /\
    Forall2 (example_of prev) curr block.

(** The teams of a summary, and the promoted names that are not among
    them. *)
Definition teams_of (summary : list Standing) : list string :=
  map (fun r : Standing => team r) summary.
Definition newcomers (summary : list Standing) : list string :=
  List.filter (fun t => negb (existsb (String.eqb t) (teams_of summary))) promoted.

(** The feature vector of a standing row, as the specification lists it. *)
Definition feature_vector (r : Standing) : list Q :=
  [ inject_Z (points (stats r)); inject_Z (wins (stats r));
    inject_Z (draws (stats r)); inject_Z (losses (stats r));
    inject_Z (goals_for (stats r)); inject_Z (goals_against (stats r));
    inject_Z (goal_diff r) ].

(** Field-wise arithmetic mean of the feature vectors of [rows]: the
    vectors are added field by field and the sum is divided by their
    number. *)
Definition vec_add (u v : list Q) : list Q :=
  map (fun ab => (fst ab + snd ab)%Q) (combine u v).
Definition vec_sum (vs : list (list Q)) : list Q :=
  fold_right vec_add (repeat 0%Q 7) vs.
Definition fieldwise_mean (rows : list Standing) : list Q :=
  map (fun x => (x / inject_Z (Z.of_nat (length rows)))%Q)
      (vec_sum (map feature_vector rows)).

(** [feats] is the field-wise mean of [n] rows of [summary] that are lowest
    in the order (points, goal_diff, goals_for): no other row of the
    summary is strictly below any of them. *)
Definition mean_of_lowest (n : nat) (summary : list Standing) (feats : list Q) : Prop :=
  exists bottom rest,
    summary ≡ₚ bottom ++ rest /\ length bottom = n /\
    (forall b r : Standing, b ∈ bottom -> r ∈ rest ->
       lex_leb (sort_key b) (sort_key r) = true) /\
    Forall2 Qeq feats (fieldwise_mean bottom).

(** A history of two seasons: one match in the first, and a newcomer in
    the second. *)
Definition two_team_history : reader := fun f =>
  if String.eqb f "s1" then Ok [mkRaw "A" "B" (Some "1-0")]
  else if String.eqb f "s2" then Ok [mkRaw "C" "A" (Some "0-0")]
  else Raise FileNotFoundError.

(** What [prepare_training_data] returns on that history, and the two
    standings behind it. *)
Definition two_team_X : list (list Q) :=
  [ [3 # 2; 1 # 2; 0 # 2; 1 # 2; 1 # 2; 1 # 2; 0 # 2]%Q;
    [3; 1; 0; 0; 1; 0; 1]%Q ].
Definition two_team_y : list Z := [1; 2]%Z.
Definition two_team_latest : list (string * list Q) :=
  [ ("C", [1; 0; 1; 0; 0; 0; 0]%Q);
    ("A", [1; 0; 1; 0; 0; 0; 0]%Q);
    ("Leeds United", [2 # 2; 0 # 2; 2 # 2; 0 # 2; 0 # 2; 0 # 2; 0 # 2]%Q);
    ("Burnley", [2 # 2; 0 # 2; 2 # 2; 0 # 2; 0 # 2; 0 # 2; 0 # 2]%Q);
    ("Sunderland", [2 # 2; 0 # 2; 2 # 2; 0 # 2; 0 # 2; 0 # 2; 0 # 2]%Q) ].
Definition two_team_first : list Standing :=
  [ mkStanding (mkRow "A" (mkStats 3 1 0 0 1 0) 1) 1;
    mkStanding (mkRow "B" (mkStats 0 0 0 1 0 1) (-1)) 2 ].
Definition two_team_second : list Standing :=
  [ mkStanding (mkRow "C" (mkStats 1 0 1 0 0 0) 0) 1;
    mkStanding (mkRow "A" (mkStats 1 0 1 0 0 0) 0) 2 ].

(** Scores of the plain form: a number is a non-empty text of at most 18
    decimal digits, so that it fits int64. *)
Definition is_digit (c : ascii) : bool :=
  match digit_val c with Some _ => true | None => false end.
Fixpoint all_digits (s : string) : bool :=
  match s with
  | EmptyString => true
  | String c s' => is_digit c && all_digits s'
  end.
Fixpoint decimal_from (acc : Z) (s : string) : Z :=
  match s with
  | EmptyString => acc
  | String c s' =>
      match digit_val c with
      | Some d => decimal_from (10 * acc + d) s'
      | None => acc
      end
  end.
Definition plain_number (s : string) : Prop :=
  s <> EmptyString /\ all_digits s = true /\ String.length s <= 18.
Definition plain_score (r : RawRow) : Prop :=
  exists a b, plain_number a /\ plain_number b /\
              raw_FT r = Some (a ++ "-" ++ b)%string.

End Vocabulary.

Ltac case_names :=
  repeat match goal with
         | |- context [String.eqb ?a ?b] =>
             destruct (String.eqb_spec a b); subst; try congruence
         end.

(** ** Driver *)

Module Driver.
Import Parser Summarizer Builder Model.

(** The season files of [main], oldest first, before they are joined to the
    directory of the script. *)
Definition season_names : list string :=
  [ "eng1_2018-19.csv"; "eng1_2019-20.csv"; "eng1_2020-21.csv";
    "eng1_2021-22.csv"; "eng1_2022-23.csv"; "eng1_2023-24.csv" ].

(** [build_and_train_model]: fitting the scaler and the forest is
    scikit-learn's; it may raise (on an empty training set, for one). *)
Definition trainer : Type := list (list Q) -> list Z -> result Pipeline.

(** [main], up to the table whose rows it prints: [predictions.iloc[:20]].
    [path_join] is [os.path.join(os.path.dirname(__file__), _)].  Rendering
    the rows as text (the [:.2f] format of a float) is left out. *)
Definition main (path_join : string -> string) (read_csv : reader)
    (build_and_train_model : trainer) (sort_values_quick : sorter)
  : result (list Prediction) :=
  let season_files := map path_join season_names in
  '(X_train, y_train, latest_features) ← prepare_training_data read_csv season_files;
  model ← build_and_train_model X_train y_train;
  predictions ← predict_league_table sort_values_quick model latest_features;
  Ok (firstn 20 predictions).

End Driver.

(** ** Declarative counterparts *)

Module Declarative.
Import Parser Summarizer Builder Model Vocabulary.

(** Texts without a dash, the inverse of [split_dash], and the number of
    dashes of a text. *)
Fixpoint no_dash (s : string) : bool :=
  match s with
  | EmptyString => true
  | String c s' => negb (Ascii.eqb c "-") && no_dash s'
  end.

Fixpoint join_dash (l : list string) : string :=
  match l with
  | [] => EmptyString
  | s :: l' =>
      match l' with
      | [] => s
      | _ :: _ => (s ++ String "-" (join_dash l'))%string
      end
  end.

Fixpoint count_dash (s : string) : nat :=
  match s with
  | EmptyString => 0
  | String c s' => (if Ascii.eqb c "-" then 1 else 0) + count_dash s'
  end.

(** A team's season read off the match list directly: every match counts
    once for its home side and once for its away side. *)
Definition sum_over (f : Match -> Z) (ms : list Match) : Z := sum_Z (map f ms).

Definition ind (b : bool) : Z := if b then 1%Z else 0%Z.

Definition is_home (t : string) (m : Match) : bool := String.eqb t (team1 m).
Definition is_away (t : string) (m : Match) : bool := String.eqb t (team2 m).

Definition won (t : string) (m : Match) : Z :=
  (ind (is_home t m && (home_goals m >? away_goals m))
   + ind (is_away t m && (home_goals m <? away_goals m)))%Z.
Definition drew (t : string) (m : Match) : Z :=
  (ind (is_home t m && (home_goals m =? away_goals m))
   + ind (is_away t m && (home_goals m =? away_goals m)))%Z.
Definition lost (t : string) (m : Match) : Z :=
  (ind (is_home t m && (home_goals m <? away_goals m))
   + ind (is_away t m && (home_goals m >? away_goals m)))%Z.
Definition scored (t : string) (m : Match) : Z :=
  ((if is_home t m then home_goals m else 0)
   + (if is_away t m then away_goals m else 0))%Z.
Definition conceded (t : string) (m : Match) : Z :=
  ((if is_home t m then away_goals m else 0)
   + (if is_away t m then home_goals m else 0))%Z.

Definition tally (t : string) (ms : list Match) : Stats :=
  mkStats (3 * sum_over (won t) ms + sum_over (drew t) ms)
          (sum_over (won t) ms) (sum_over (drew t) ms) (sum_over (lost t) ms)
          (sum_over (scored t) ms) (sum_over (conceded t) ms).

(** [t] is a side of some match. *)
Definition plays (t : string) (ms : list Match) : Prop :=
  exists m, m ∈ ms /\ (team1 m = t \/ team2 m = t).

(** Names in the order in which a pass over the matches meets them first,
    the home side of a match before its away side. *)
Definition add_key (k : string) (ks : list string) : list string :=
  if existsb (String.eqb k) ks then ks else ks ++ [k].
Definition first_seen (ms : list Match) : list string :=
  fold_left (fun ks m => add_key (team2 m) (add_key (team1 m) ks)) ms [].

(** [a] stands somewhere before [b] in [l]. *)
Definition precedes {A : Type} (l : list A) (a b : A) : Prop :=
  exists l1 l2 l3, l = l1 ++ a :: l2 ++ b :: l3.

(** A probability vector that puts everything on index [k]. *)
Fixpoint one_hot (k n : nat) : list Q :=
  match n with
  | 0 => []
  | S n' => match k with
            | 0 => 1%Q :: repeat 0%Q n'
            | S k' => 0%Q :: one_hot k' n'
            end
  end.

End Declarative.

(* ================================================================= *)
(** * Properties *)

Import Parser Summarizer Builder Model Vocabulary.

(** ** Generic facts: [mapM] and stable sorting *)

Lemma mapM_Ok {A B : Type} (f : A -> result B) (l : list A) (ys : list B) :
  mapM f l = Ok ys <-> Forall2 (fun x y => f x = Ok y) l ys.
Proof.
  revert ys. induction l as [|x l IH]; intros ys; simpl.
  - split; intros H; [injection H as <-; constructor | inversion H; reflexivity].
  - unfold mbind, result_bind. destruct (f x) as [y|e] eqn:Hx.
    + destruct (mapM f l) as [zs|e] eqn:Hl.
      * split; intros H.
        -- injection H as <-. constructor; [exact Hx | now apply IH].
        -- inversion H as [|? y' ? zs' Hy' Hzs']; subst.
           apply IH in Hzs'. congruence.
      * split; intros H; [discriminate|].
        inversion H as [|? y' ? zs' Hy' Hzs']; subst.
        apply IH in Hzs'. discriminate.
    + split; intros H; [discriminate|].
      inversion H; subst; congruence.
Qed.

Lemma mapM_total {A B : Type} (f : A -> result B) (l : list A) :
  (forall x, x ∈ l -> exists y, f x = Ok y) -> exists ys, mapM f l = Ok ys.
Proof.
  induction l as [|x l IH]; intros Hf; simpl; [now eexists|].
  destruct (Hf x) as [y Hy]; [constructor|].
  destruct IH as [ys Hys]; [intros z Hz; apply Hf; now constructor|].
  unfold mbind, result_bind. rewrite Hy, Hys. now eexists.
Qed.

Lemma mapM_Raise {A B : Type} (f : A -> result B) (l : list A) (x : A) (e : exn) :
  x ∈ l -> f x = Raise e -> exists e', mapM f l = Raise e'.
Proof.
  induction l as [|z l IH]; intros Hin Hx; [inversion Hin|].
  simpl. unfold mbind, result_bind.
  destruct (f z) as [y|e1] eqn:Hz; [|now eexists].
  apply elem_of_cons in Hin as [->|Hin]; [congruence|].
  destruct (IH Hin Hx) as [e' ->]. now eexists.
Qed.


Section SortFacts.
Context {A : Type} (leb : A -> A -> bool) (R : A -> A -> Prop).
Hypothesis leb_true : forall x y, leb x y = true -> R x y.
Hypothesis leb_false : forall x y, leb x y = false -> R y x.
Hypothesis R_trans : forall x y z, R x y -> R y z -> R x z.

Lemma insert_row_perm (x : A) (l : list A) : insert_row leb x l ≡ₚ x :: l.
Proof using Type.
  induction l as [|y l IH]; simpl; [reflexivity|].
  destruct (leb x y); [reflexivity|].
  rewrite IH. apply perm_swap.
Qed.

Lemma sort_values_perm (l : list A) : sort_values leb l ≡ₚ l.
Proof using Type.
  induction l as [|x l IH]; simpl; [reflexivity|].
  rewrite insert_row_perm. now rewrite IH.
Qed.

Lemma insert_row_sorted (x : A) (l : list A) :
  StronglySorted R l -> StronglySorted R (insert_row leb x l).
Proof using leb_true leb_false R_trans.
  induction 1 as [|y l Hl IH Hy]; simpl.
  - repeat constructor.
  - destruct (leb x y) eqn:Hxy.
    + constructor; [now constructor|].
      constructor; [now apply leb_true|].
      eapply Forall_impl; [exact Hy|]. intros z Hz. simpl in Hz.
      eapply R_trans; [apply leb_true|]; eauto.
    + constructor; [exact IH|].
      rewrite (insert_row_perm x l). constructor; [|exact Hy].
      now apply leb_false.
Qed.

Lemma sort_values_sorted_for (l : list A) : StronglySorted R (sort_values leb l).
Proof using leb_true leb_false R_trans.
  induction l as [|x l IH]; simpl; [constructor|].
  now apply insert_row_sorted.
Qed.
End SortFacts.

Lemma sort_values_sorted {A : Type} (leb : A -> A -> bool) (l : list A) :
  (forall x y, leb x y = true \/ leb y x = true) ->
  (forall x y z, leb x y = true -> leb y z = true -> leb x z = true) ->
  StronglySorted (fun a b => leb a b = true) (sort_values leb l).
Proof.
  intros Htot Htrans. apply sort_values_sorted_for; [auto| |exact Htrans].
  intros x y Hxy. destruct (Htot x y); congruence.
Qed.

Lemma StronglySorted_lookup {A : Type} (R : A -> A -> Prop) (l : list A) :
  StronglySorted R l ->
  forall i j x y, l !! i = Some x -> l !! j = Some y -> i < j -> R x y.
Proof.
  induction 1 as [|a l Hl IH Ha]; intros i j x y Hi Hj Hlt; [discriminate|].
  destruct j as [|j]; [lia|]. simpl in Hj.
  destruct i as [|i]; simpl in Hi.
  - injection Hi as <-. rewrite Forall_forall in Ha. apply Ha.
    eapply list_elem_of_lookup_2; eauto.
  - eapply IH; eauto. lia.
Qed.

Lemma lex_leb_total (a b : Z * Z * Z) : lex_leb a b = true \/ lex_leb b a = true.
Proof.
  destruct a as [[a1 a2] a3], b as [[b1 b2] b3]. unfold lex_leb.
  rewrite !orb_true_iff, !andb_true_iff, !orb_true_iff, !andb_true_iff,
    !Z.ltb_lt, !Z.eqb_eq, !Z.leb_le. lia.
Qed.

Lemma lex_leb_trans (a b c : Z * Z * Z) :
  lex_leb a b = true -> lex_leb b c = true -> lex_leb a c = true.
Proof.
  destruct a as [[a1 a2] a3], b as [[b1 b2] b3], c as [[c1 c2] c3]. unfold lex_leb.
  rewrite !orb_true_iff, !andb_true_iff, !orb_true_iff, !andb_true_iff,
    !Z.ltb_lt, !Z.eqb_eq, !Z.leb_le. lia.
Qed.

Lemma lex_leb_spec (a1 a2 a3 b1 b2 b3 : Z) :
  lex_leb (a1, a2, a3) (b1, b2, b3) = true <->
  (a1 < b1 \/ (a1 = b1 /\ (a2 < b2 \/ (a2 = b2 /\ a3 <= b3))))%Z.
Proof.
  unfold lex_leb.
  rewrite !orb_true_iff, !andb_true_iff, !orb_true_iff, !andb_true_iff,
    !Z.ltb_lt, !Z.eqb_eq, !Z.leb_le. tauto.
Qed.

Example parse_small :
  Parser.parse_match_results
    [Parser.mkRaw "A" "B" (Some "3-1"); Parser.mkRaw "B" "C" (Some " 0 - 2")]
  = Ok [Parser.mkMatch "A" "B" (Some "3-1") 3 1;
        Parser.mkMatch "B" "C" (Some " 0 - 2") 0 2].
Proof. reflexivity. Qed.

Example parse_three_segments :
  Parser.parse_match_results [Parser.mkRaw "A" "B" (Some "3-1-2")]
  = Ok [Parser.mkMatch "A" "B" (Some "3-1-2") 3 1].
Proof. reflexivity. Qed.

Example parse_empty : Parser.parse_match_results [] = Raise KeyError.
Proof. reflexivity. Qed.

Example parse_missing :
  Parser.parse_match_results
    [Parser.mkRaw "A" "B" (Some "3-1"); Parser.mkRaw "B" "C" None]
  = Raise ValueError.
Proof. reflexivity. Qed.

Example parse_no_score :
  Parser.parse_match_results
    [Parser.mkRaw "A" "B" None; Parser.mkRaw "B" "C" None]
  = Raise AttributeError.
Proof. reflexivity. Qed.

Example parse_short :
  Parser.parse_match_results
    [Parser.mkRaw "A" "B" (Some "3-1"); Parser.mkRaw "B" "C" (Some "4")]
  = Raise TypeError.
Proof. reflexivity. Qed.

Example summarise_small :
  summarise_season
    [mkMatch "A" "B" (Some "1-0") 1 0; mkMatch "C" "A" (Some "2-2") 2 2;
     mkMatch "B" "C" (Some "0-3") 0 3]
  = Ok [mkStanding (mkRow "C" (mkStats 4 1 1 0 5 2) 3) 1;
        mkStanding (mkRow "A" (mkStats 4 1 1 0 3 2) 1) 2;
        mkStanding (mkRow "B" (mkStats 0 0 0 2 0 4) (-4)) 3].
Proof. reflexivity. Qed.

Example summarise_empty : summarise_season [] = Raise KeyError.
Proof. reflexivity. Qed.

Example prepare_no_files : prepare_training_data two_team_history [] = Raise IndexError.
Proof. reflexivity. Qed.

Example prepare_missing_file :
  prepare_training_data two_team_history ["s1"; "s3"] = Raise FileNotFoundError.
Proof. reflexivity. Qed.

Example py_int_samples :
  py_int " +1_0 " = Some 10%Z /\ py_int "1__0" = None /\ py_int "" = None /\
  py_int "007" = Some 7%Z /\ py_int "12a" = None /\ py_int "3.0" = None.
Proof. repeat split; reflexivity. Qed.

(** The tab is whitespace to [int]; the file separator (code 28) is not. *)
Example py_int_separators :
  py_int (String (ascii_of_nat 9) "3") = Some 3%Z /\
  py_int (String (ascii_of_nat 28) "3") = None /\
  py_int (String "3" (String (ascii_of_nat 31) EmptyString)) = None.
Proof. repeat split; reflexivity. Qed.

(** ** Season Summarizer: the accumulation loop *)

Lemma sum_Z_app (l1 l2 : list Z) : sum_Z (l1 ++ l2) = (sum_Z l1 + sum_Z l2)%Z.
Proof. induction l1 as [|x l1 IH]; simpl; lia. Qed.

Lemma sum_Z_perm (l1 l2 : list Z) : l1 ≡ₚ l2 -> sum_Z l1 = sum_Z l2.
Proof. induction 1; simpl; lia. Qed.

Lemma total_update (f : Stats -> Z) (g : Stats -> Stats) (n : Z)
    (teams : teams_dict) (k : string) :
  (forall s, f (g s) = (f s + n)%Z) -> f default_stats = 0%Z ->
  total f (update teams k g) = (total f teams + n)%Z.
Proof.
  intros Hg H0. unfold total.
  induction teams as [|[k' s] rest IH]; simpl.
  - rewrite Hg, H0. lia.
  - destruct (String.eqb k k'); simpl; [rewrite Hg|rewrite IH]; lia.
Qed.

Lemma total_points_add (n : Z) (teams : teams_dict) (k : string) :
  total points (update teams k (add_points n)) = (total points teams + n)%Z.
Proof. now apply total_update. Qed.

Lemma total_points_keep (g : Stats -> Stats) (teams : teams_dict) (k : string) :
  (forall s, points (g s) = points s) ->
  total points (update teams k g) = total points teams.
Proof.
  intros Hg. rewrite (total_update points g 0); [lia| |reflexivity].
  intros s. rewrite Hg. lia.
Qed.

Lemma record_match_points (teams : teams_dict) (m : Match) :
  total points (record_match teams m) =
  (total points teams + if (home_goals m =? away_goals m)%Z then 2 else 3)%Z.
Proof.
  unfold record_match.
  destruct (Z.gtb_spec (home_goals m) (away_goals m)) as [Hgt|Hle];
    [|destruct (Z.ltb_spec (home_goals m) (away_goals m)) as [Hlt|Hge]];
    repeat first [ rewrite total_points_add
                 | rewrite total_points_keep by reflexivity ];
    destruct (Z.eqb_spec (home_goals m) (away_goals m)); lia.
Qed.

Lemma fold_record_match_points (ms : list Match) (teams : teams_dict) :
  total points (fold_left record_match ms teams) =
  (total points teams + 3 * Z.of_nat (decisive ms) + 2 * Z.of_nat (drawn ms))%Z.
Proof.
  revert teams. induction ms as [|m ms IH]; intros teams; simpl.
  - unfold decisive, drawn. simpl. lia.
  - rewrite IH, record_match_points. unfold decisive, drawn. cbn [List.filter].
    destruct (home_goals m =? away_goals m)%Z; cbn [negb length];
      rewrite ?Nat2Z.inj_succ; lia.
Qed.

Lemma update_length (teams : teams_dict) (k : string) (g : Stats -> Stats) :
  length teams <= length (update teams k g) /\ 1 <= length (update teams k g).
Proof.
  induction teams as [|[k' s] rest IH]; simpl; [lia|].
  destruct (String.eqb k k'); simpl; lia.
Qed.

Lemma record_match_length (teams : teams_dict) (m : Match) :
  length teams <= length (record_match teams m) /\ 1 <= length (record_match teams m).
Proof.
  unfold record_match.
  repeat match goal with
         | |- context [if ?b then _ else _] => destruct b
         end;
    repeat match goal with
           | |- context [update ?d ?k ?g] =>
               lazymatch goal with
               | _ : length d <= length (update d k g) /\ _ |- _ => fail
               | _ => pose proof (update_length d k g)
               end
           end; lia.
Qed.

Lemma fold_record_match_length (ms : list Match) (teams : teams_dict) :
  length teams <= length (fold_left record_match ms teams).
Proof.
  revert teams. induction ms as [|m ms IH]; intros teams; simpl; [lia|].
  pose proof (IH (record_match teams m)).
  pose proof (record_match_length teams m). lia.
Qed.

Lemma teams_nonempty (ms : list Match) :
  ms <> [] -> fold_left record_match ms [] <> [].
Proof.
  destruct ms as [|m ms]; [congruence|]. intros _ H. simpl in H.
  pose proof (fold_record_match_length ms (record_match [] m)) as Hlen.
  pose proof (record_match_length [] m). rewrite H in Hlen. simpl in Hlen. lia.
Qed.

Lemma with_position_rows (i : nat) (l : list SummaryRow) :
  map row (with_position i l) = l.
Proof. revert i. induction l as [|r l IH]; intros i; simpl; [|rewrite IH]; reflexivity. Qed.

Lemma with_position_lookup (l : list SummaryRow) (i j : nat) (s : Standing) :
  with_position i l !! j = Some s <->
  l !! j = Some (row s) /\ position s = (Z.of_nat (i + j) + 1)%Z.
Proof.
  revert i j. induction l as [|r l IH]; intros i j; simpl.
  - split; [discriminate|intros [? _]; discriminate].
  - destruct j as [|j]; simpl.
    + replace (i + 0) with i by lia. split.
      * intros H. injection H as <-. simpl. auto.
      * intros [H1 H2]. injection H1 as ->. destruct s as [r' p]. simpl in *. now subst.
    + rewrite IH. replace (S i + j) with (i + S j) by lia. reflexivity.
Qed.

(** The outcome of [summarise_season], unfolded once and for all. *)
Lemma summarise_season_Ok (ms : list Match) (tbl : list Standing) :
  summarise_season ms = Ok tbl <->
  ms <> [] /\
  tbl = with_position 0
          (sort_values descending (map build_row (fold_left record_match ms []))).
Proof.
  unfold summarise_season.
  destruct ms as [|m ms].
  - simpl. split; [discriminate|intros [H _]; congruence].
  - pose proof (teams_nonempty (m :: ms) ltac:(congruence)) as Hne.
    destruct (fold_left record_match (m :: ms) []) as [|e d] eqn:Hd; [congruence|].
    simpl map. split.
    + intros H. injection H as <-. split; [congruence|reflexivity].
    + intros [_ ->]. reflexivity.
Qed.

Lemma summarise_season_Raise (ms : list Match) (e : exn) :
  summarise_season ms = Raise e -> ms = [].
Proof.
  intros H. destruct ms as [|m ms]; [reflexivity|].
  destruct (summarise_season (m :: ms)) as [tbl|e'] eqn:Hs; [discriminate|].
  assert (exists tbl, summarise_season (m :: ms) = Ok tbl) as [tbl Ht].
  { eexists. apply summarise_season_Ok. split; [congruence|reflexivity]. }
  congruence.
Qed.

Lemma summary_rows_perm (ms : list Match) (tbl : list Standing) :
  summarise_season ms = Ok tbl ->
  map row tbl ≡ₚ map build_row (fold_left record_match ms []).
Proof.
  intros [_ ->]%summarise_season_Ok.
  rewrite with_position_rows. apply sort_values_perm.
Qed.

(** C6. For every parsed match table on which [summarise_season] returns,
    the points column of the summary sums to three times the number of
    matches with unequal goal counts plus twice the number of matches with
    equal goal counts; it raises only on the table without rows. *)
Theorem summarise_season_points_total (ms : list Match) :
  match summarise_season ms with
  | Ok tbl =>
      total_points tbl = (3 * Z.of_nat (decisive ms) + 2 * Z.of_nat (drawn ms))%Z
  | Raise _ => ms = []
  end.
Proof.
  destruct (summarise_season ms) as [tbl|e] eqn:Hs.
  - pose proof (summary_rows_perm ms tbl Hs) as Hperm.
    unfold total_points.
    transitivity (sum_Z (map (fun r : SummaryRow => points (stats r)) (map row tbl))).
    { rewrite map_map. reflexivity. }
    rewrite (sum_Z_perm _ _ (Permutation_map _ Hperm)).
    rewrite map_map.
    pose proof (fold_record_match_points ms []) as Hfold.
    replace (total points []) with 0%Z in Hfold by reflexivity.
    transitivity (total points (fold_left record_match ms [])); [|lia].
    unfold total. f_equal. apply map_ext. intros [t s]. reflexivity.
  - eapply summarise_season_Raise; eauto.
Qed.

(** ** Season Summarizer: per-team statistics *)

Lemma stats_of_update (teams : teams_dict) (k t : string) (g : Stats -> Stats) :
  stats_of (update teams k g) t =
  if String.eqb t k then g (stats_of teams k) else stats_of teams t.
Proof.
  unfold stats_of. induction teams as [|[k' s] rest IH]; simpl.
  - destruct (String.eqb t k); reflexivity.
  - destruct (String.eqb_spec k k') as [->|Hk]; simpl.
    + destruct (String.eqb t k'); reflexivity.
    + destruct (String.eqb_spec t k') as [->|Ht].
      * destruct (String.eqb_spec k' k); [congruence|reflexivity].
      * rewrite IH. destruct (String.eqb_spec k k'); [congruence|reflexivity].
Qed.

Lemma record_match_stats (teams : teams_dict) (m : Match) (t : string) :
  surplus (stats_of (record_match teams m) t) = surplus (stats_of teams t) /\
  wdl (stats_of (record_match teams m) t) =
    (wdl (stats_of teams t)
     + (if String.eqb t (team1 m) then 1 else 0)
     + (if String.eqb t (team2 m) then 1 else 0))%Z.
Proof.
  destruct m as [h a ft hg ag]. unfold record_match. cbn [team1 team2 home_goals away_goals].
  destruct (hg >? ag)%Z; [|destruct (hg <? ag)%Z];
    rewrite !stats_of_update; case_names; unfold surplus, wdl; simpl; lia.
Qed.

Lemma fold_record_match_stats (ms : list Match) (teams : teams_dict) (t : string) :
  surplus (stats_of (fold_left record_match ms teams) t) = surplus (stats_of teams t) /\
  wdl (stats_of (fold_left record_match ms teams) t) =
    (wdl (stats_of teams t) + Z.of_nat (home_matches t ms + away_matches t ms))%Z.
Proof.
  revert teams. induction ms as [|m ms IH]; intros teams; simpl.
  - unfold home_matches, away_matches. simpl. lia.
  - destruct (IH (record_match teams m)) as [IH1 IH2].
    destruct (record_match_stats teams m t) as [H1 H2].
    rewrite IH1, IH2, H1, H2. split; [reflexivity|].
    unfold home_matches, away_matches. cbn [List.filter].
    destruct (String.eqb t (team1 m)), (String.eqb t (team2 m)); cbn [length]; lia.
Qed.

Lemma update_keys (teams : teams_dict) (k : string) (g : Stats -> Stats) :
  ((k ∈ map fst teams) /\ map fst (update teams k g) = map fst teams) \/
  ((k ∉ map fst teams) /\ map fst (update teams k g) = map fst teams ++ [k]).
Proof.
  induction teams as [|[k' s] rest IH]; simpl.
  - right. split; [apply not_elem_of_nil|reflexivity].
  - destruct (String.eqb_spec k k') as [->|Hk]; simpl.
    + left. split; [constructor|reflexivity].
    + destruct IH as [[Hin Heq]|[Hnin Heq]]; rewrite Heq.
      * left. split; [now constructor|reflexivity].
      * right. split; [|reflexivity].
        intros [?|?]%elem_of_cons; congruence.
Qed.

Lemma update_keys_NoDup (teams : teams_dict) (k : string) (g : Stats -> Stats) :
  NoDup (map fst teams) -> NoDup (map fst (update teams k g)).
Proof.
  intros Hnd. destruct (update_keys teams k g) as [[_ ->]|[Hnin ->]]; [exact Hnd|].
  apply NoDup_app. split; [exact Hnd|]. split; [|apply NoDup_singleton].
  intros x Hx ->%list_elem_of_singleton. contradiction.
Qed.

Lemma record_match_keys_NoDup (teams : teams_dict) (m : Match) :
  NoDup (map fst teams) -> NoDup (map fst (record_match teams m)).
Proof.
  intros Hnd. unfold record_match.
  destruct (home_goals m >? away_goals m)%Z; [|destruct (home_goals m <? away_goals m)%Z];
    repeat apply update_keys_NoDup; exact Hnd.
Qed.

Lemma fold_record_match_keys_NoDup (ms : list Match) (teams : teams_dict) :
  NoDup (map fst teams) -> NoDup (map fst (fold_left record_match ms teams)).
Proof.
  revert teams. induction ms as [|m ms IH]; intros teams Hnd; simpl; [exact Hnd|].
  apply IH. now apply record_match_keys_NoDup.
Qed.

Lemma stats_of_entry (teams : teams_dict) (t : string) (s : Stats) :
  NoDup (map fst teams) -> (t, s) ∈ teams -> stats_of teams t = s.
Proof.
  unfold stats_of. induction teams as [|[k' s'] rest IH]; intros Hnd Hin.
  - inversion Hin.
  - simpl in *. apply NoDup_cons in Hnd as [Hk Hnd].
    apply elem_of_cons in Hin as [Heq|Hin].
    + injection Heq as <- <-. now rewrite String.eqb_refl.
    + destruct (String.eqb_spec t k') as [->|Ht]; [|now apply IH].
      exfalso. apply Hk. apply list_elem_of_fmap. exists (k', s). auto.
Qed.

(** Every row of a summary is an entry of the accumulated dictionary. *)
Lemma summary_row_entry (ms : list Match) (tbl : list Standing) (r : Standing) :
  summarise_season ms = Ok tbl -> r ∈ tbl ->
  stats r = stats_of (fold_left record_match ms []) (team r) /\
  goal_diff r = (goals_for (stats r) - goals_against (stats r))%Z.
Proof.
  intros Hs Hr. pose proof (summary_rows_perm ms tbl Hs) as Hperm.
  assert (row r ∈ map build_row (fold_left record_match ms [])) as Hin.
  { rewrite <- Hperm. apply list_elem_of_fmap. eauto. }
  apply list_elem_of_fmap in Hin as [[t s] [Heq Hin]].
  rewrite Heq. simpl. split; [|reflexivity].
  symmetry. apply stats_of_entry; [|exact Hin].
  apply fold_record_match_keys_NoDup. constructor.
Qed.

Lemma matches_with_distinct (t : string) (ms : list Match) :
  (forall m, m ∈ ms -> team1 m <> team2 m) ->
  matches_with t ms = home_matches t ms + away_matches t ms.
Proof.
  unfold matches_with, home_matches, away_matches.
  induction ms as [|m ms IH]; intros Hd; [reflexivity|].
  cbn [List.filter].
  assert (team1 m <> team2 m) as Hm by (apply Hd; constructor).
  assert (forall m', m' ∈ ms -> team1 m' <> team2 m') as Hd'
    by (intros; apply Hd; now constructor).
  specialize (IH Hd').
  destruct (String.eqb_spec t (team1 m)), (String.eqb_spec t (team2 m));
    try congruence; cbn [orb length]; lia.
Qed.

(** C10 (as amended). For every team row of a summary, points equals
    3 x wins + draws, and wins + draws + losses equals the number of the
    team's appearances as home side plus its appearances as away side; that
    is the number of matches the team appears in whenever no match names
    the same team on both sides. *)
Theorem summarise_season_row_invariants (ms : list Match) (tbl : list Standing)
    (r : Standing) :
  summarise_season ms = Ok tbl -> r ∈ tbl ->
  points (stats r) = (3 * wins (stats r) + draws (stats r))%Z /\
  (wins (stats r) + draws (stats r) + losses (stats r))%Z
    = Z.of_nat (home_matches (team r) ms + away_matches (team r) ms) /\
  ((forall m, m ∈ ms -> team1 m <> team2 m) ->
   (wins (stats r) + draws (stats r) + losses (stats r))%Z
     = Z.of_nat (matches_with (team r) ms)).
Proof.
  intros Hs Hr.
  destruct (summary_row_entry ms tbl r Hs Hr) as [Hst _].
  destruct (fold_record_match_stats ms [] (team r)) as [H1 H2].
  rewrite <- Hst in H1, H2. unfold surplus, wdl, stats_of in H1, H2. simpl in H1, H2.
  split; [lia|]. split; [lia|].
  intros Hd. rewrite (matches_with_distinct _ _ Hd). lia.
Qed.

Lemma summarise_season_row_invariants_witness :
  points (mkStats 3 1 0 0 1 0) = (3 * wins (mkStats 3 1 0 0 1 0) + draws (mkStats 3 1 0 0 1 0))%Z /\
  (1 + 0 + 0)%Z
    = Z.of_nat (home_matches "A" [mkMatch "A" "B" (Some "1-0") 1 0]
                + away_matches "A" [mkMatch "A" "B" (Some "1-0") 1 0]) /\
  ((forall m, m ∈ [mkMatch "A" "B" (Some "1-0") 1 0] -> team1 m <> team2 m) ->
   (1 + 0 + 0)%Z = Z.of_nat (matches_with "A" [mkMatch "A" "B" (Some "1-0") 1 0])).
Proof.
  apply (summarise_season_row_invariants
           [mkMatch "A" "B" (Some "1-0") 1 0]
           [mkStanding (mkRow "A" (mkStats 3 1 0 0 1 0) 1) 1;
            mkStanding (mkRow "B" (mkStats 0 0 0 1 0 1) (-1)) 2]
           (mkStanding (mkRow "A" (mkStats 3 1 0 0 1 0) 1) 1)).
  - reflexivity.
  - constructor.
Defined.

(** A match that names the same team on both sides is counted twice in
    wins + draws + losses, but is one match. *)
Lemma summarise_season_self_match :
  summarise_season [mkMatch "A" "A" (Some "1-1") 1 1]
    = Ok [mkStanding (mkRow "A" (mkStats 2 0 2 0 2 2) 0) 1] /\
  (0 + 2 + 0)%Z <> Z.of_nat (matches_with "A" [mkMatch "A" "A" (Some "1-1") 1 1]).
Proof. split; [reflexivity|]. vm_compute. discriminate. Qed.

(** ** Season Summarizer: ordering *)

Lemma descending_total (a b : SummaryRow) : descending a b = true \/ descending b a = true.
Proof. apply lex_leb_total. Qed.

Lemma descending_trans (a b c : SummaryRow) :
  descending a b = true -> descending b c = true -> descending a c = true.
Proof. unfold descending. intros H1 H2. eapply lex_leb_trans; eauto. Qed.

Lemma summary_sorted (ms : list Match) (tbl : list Standing) :
  summarise_season ms = Ok tbl ->
  StronglySorted (fun a b => descending a b = true) (map row tbl).
Proof.
  intros [_ ->]%summarise_season_Ok. rewrite with_position_rows.
  apply sort_values_sorted; [apply descending_total|apply descending_trans].
Qed.

Lemma summary_position (ms : list Match) (tbl : list Standing) (i : nat) (r : Standing) :
  summarise_season ms = Ok tbl -> tbl !! i = Some r -> position r = (Z.of_nat i + 1)%Z.
Proof.
  intros [_ ->]%summarise_season_Ok Hi.
  apply with_position_lookup in Hi as [_ Hp]. exact Hp.
Qed.

(** Rows standing later in a summary never have a strictly greater key. *)
Lemma summary_order (ms : list Match) (tbl : list Standing) (i j : nat) (r1 r2 : Standing) :
  summarise_season ms = Ok tbl -> tbl !! i = Some r1 -> tbl !! j = Some r2 ->
  lex_leb (sort_key r1) (sort_key r2) = false -> i < j.
Proof.
  intros Hs Hi Hj Hkey.
  pose proof (summary_sorted ms tbl Hs) as Hsorted.
  destruct (Nat.lt_trichotomy i j) as [Hlt|[->|Hgt]]; [exact Hlt| |].
  - assert (r1 = r2) as -> by congruence.
    destruct (lex_leb_total (sort_key r2) (sort_key r2)); congruence.
  - assert (descending r2 r1 = true) as Hd.
    { eapply (StronglySorted_lookup _ _ Hsorted j i); [| |exact Hgt];
        rewrite list_lookup_fmap; [rewrite Hj|rewrite Hi]; reflexivity. }
    unfold descending in Hd. congruence.
Qed.

(** C7. In a summary, of two teams with identical points the one with the
    strictly higher goal difference has the strictly smaller position, and
    of two teams with identical points and goal difference the one with
    strictly more goals scored has the strictly smaller position. *)
Theorem summarise_season_tie_break (ms : list Match) (tbl : list Standing)
    (r1 r2 : Standing) :
  summarise_season ms = Ok tbl -> r1 ∈ tbl -> r2 ∈ tbl ->
  points (stats r1) = points (stats r2) ->
  ((goal_diff r1 > goal_diff r2)%Z -> (position r1 < position r2)%Z) /\
  (goal_diff r1 = goal_diff r2 ->
   (goals_for (stats r1) > goals_for (stats r2))%Z -> (position r1 < position r2)%Z).
Proof.
  intros Hs [i Hi]%list_elem_of_lookup [j Hj]%list_elem_of_lookup Hpts.
  rewrite (summary_position ms tbl i r1 Hs Hi), (summary_position ms tbl j r2 Hs Hj).
  assert (lex_leb (sort_key r1) (sort_key r2) = false -> (Z.of_nat i + 1 < Z.of_nat j + 1)%Z)
    as Hord.
  { intros Hkey. pose proof (summary_order ms tbl i j r1 r2 Hs Hi Hj Hkey). lia. }
  split; [intros Hgd|intros Hgd Hgf]; apply Hord;
    apply not_true_is_false; unfold sort_key; rewrite lex_leb_spec; lia.
Qed.

Lemma summarise_season_tie_break_witness :
  ((1 > -1)%Z -> (1 < 2)%Z) /\ (1%Z = (-1)%Z -> (2 > 0)%Z -> (1 < 2)%Z).
Proof.
  apply (summarise_season_tie_break
           [mkMatch "A" "B" (Some "2-0") 2 0; mkMatch "B" "A" (Some "1-0") 1 0]
           [mkStanding (mkRow "A" (mkStats 3 1 0 1 2 1) 1) 1;
            mkStanding (mkRow "B" (mkStats 3 1 0 1 1 2) (-1)) 2]
           (mkStanding (mkRow "A" (mkStats 3 1 0 1 2 1) 1) 1)
           (mkStanding (mkRow "B" (mkStats 3 1 0 1 1 2) (-1)) 2)).
  - reflexivity.
  - constructor.
  - constructor. constructor.
  - reflexivity.
Defined.

(** ** Ranking Model: expected positions *)

Lemma min_max_label_bounds (classes : list Z) (c : Z) :
  c ∈ classes -> (min_label classes <= c <= max_label classes)%Z.
Proof.
  unfold min_label, max_label. generalize (hd 0%Z classes) as d.
  induction classes as [|a l IH]; intros d Hin; [inversion Hin|].
  simpl. apply elem_of_cons in Hin as [->|Hin]; [lia|].
  specialize (IH d Hin). lia.
Qed.

Lemma dot_between (lo hi : Z) (p : list Q) (classes : list Z) :
  length p = length classes ->
  Forall (fun x => (0 <= x)%Q) p ->
  Forall (fun c => (lo <= c <= hi)%Z) classes ->
  (inject_Z lo * sum_Q p <= dot p classes /\ dot p classes <= inject_Z hi * sum_Q p)%Q.
Proof.
  revert classes. induction p as [|x p IH]; intros [|c classes] Hlen Hp Hc;
    try discriminate; simpl.
  - split; lra.
  - inversion Hp as [|? ? Hx Hp']; subst. inversion Hc as [|? ? Hc1 Hc']; subst.
    injection Hlen as Hlen. destruct (IH classes Hlen Hp' Hc') as [IH1 IH2].
    assert (inject_Z lo <= inject_Z c)%Q as Hlo by (rewrite <- Zle_Qle; lia).
    assert (inject_Z c <= inject_Z hi)%Q as Hhi by (rewrite <- Zle_Qle; lia).
    split; nra.
Qed.

Lemma expected_position_between (p : list Q) (classes : list Z) (e : Q) :
  distribution p -> expected_position p classes = Ok e ->
  (inject_Z (min_label classes) <= e /\ e <= inject_Z (max_label classes))%Q.
Proof.
  intros [Hpos Hsum]. unfold expected_position.
  destruct (Nat.eqb_spec (length p) (length classes)) as [Hlen|]; [|discriminate].
  intros H. injection H as <-.
  destruct (dot_between (min_label classes) (max_label classes) p classes Hlen Hpos)
    as [H1 H2].
  { apply Forall_forall. intros c Hc. now apply min_max_label_bounds. }
  rewrite Hsum in H1, H2. split; lra.
Qed.

Lemma with_rank_pairs (i : nat) (l : list (string * Q)) :
  map (fun r => (pteam r, expected r)) (with_rank i l) = l.
Proof.
  revert i. induction l as [|[t e] l IH]; intros i; simpl; [|rewrite IH]; reflexivity.
Qed.

Lemma with_rank_lookup (l : list (string * Q)) (i j : nat) (r : Prediction) :
  with_rank i l !! j = Some r <->
  l !! j = Some (pteam r, expected r) /\ predicted_rank r = (Z.of_nat (i + j) + 1)%Z.
Proof.
  revert i j. induction l as [|[t e] l IH]; intros i j; simpl.
  - split; [discriminate|intros [? _]; discriminate].
  - destruct j as [|j]; simpl.
    + replace (i + 0) with i by lia. split.
      * intros H. injection H as <-. simpl. auto.
      * intros [H1 H2]. destruct r as [k t' e']. simpl in *.
        injection H1 as -> ->. now subst.
    + rewrite IH. replace (S i + j) with (i + S j) by lia. reflexivity.
Qed.

(** The outcome of [predict_league_table], unfolded once and for all. *)
Lemma predict_league_table_Ok (sort : sorter) (model : Pipeline)
    (features : list (string * list Q)) (out : list Prediction) :
  predict_league_table sort model features = Ok out ->
  exists exps,
    Forall2 (fun f e => expected_position (predict_proba model (snd f)) (classes_ model) = Ok e)
            features exps /\
    out = with_rank 0 (sort (combine (map fst features) exps)).
Proof.
  unfold predict_league_table, mbind, result_bind.
  destruct (mapM _ features) as [exps|e] eqn:Hm; [|discriminate].
  intros H. injection H as <-. exists exps. split; [|reflexivity].
  now apply mapM_Ok in Hm.
Qed.

Lemma combine_Forall2_elem {A B C : Type} (P : A -> B -> Prop) (g : A -> C)
    (l : list A) (k : list B) (c : C) (b : B) :
  Forall2 P l k -> (c, b) ∈ combine (map g l) k ->
  exists a, a ∈ l /\ g a = c /\ P a b.
Proof.
  induction 1 as [|a b' l k Hab Hlk IH]; simpl; intros Hin; [inversion Hin|].
  apply elem_of_cons in Hin as [Heq|Hin].
  - injection Heq as -> ->. exists a. split; [constructor|auto].
  - destruct (IH Hin) as (a' & Ha' & Hg & HP). exists a'. split; [now constructor|auto].
Qed.

Lemma prediction_row_source (sort : sorter) (model : Pipeline)
    (features : list (string * list Q)) (out : list Prediction) (r : Prediction) :
  (forall l, sort l ≡ₚ l) ->
  predict_league_table sort model features = Ok out -> r ∈ out ->
  exists f, f ∈ features /\ fst f = pteam r /\
    expected_position (predict_proba model (snd f)) (classes_ model) = Ok (expected r).
Proof.
  intros Hperm (exps & Hexps & ->)%predict_league_table_Ok Hr.
  assert ((pteam r, expected r) ∈ combine (map fst features) exps) as Hin.
  { rewrite <- (Hperm (combine (map fst features) exps)).
    rewrite <- (with_rank_pairs 0 (sort _)).
    apply list_elem_of_fmap. exists r. auto. }
  destruct (combine_Forall2_elem _ fst _ _ _ _ Hexps Hin) as (f & Hf & Hfst & He).
  exists f. auto.
Qed.

(** C8. Whenever the pipeline returns a probability vector (non-negative
    entries summing to one) for every feature row, each expected position
    computed by [predict_league_table], the dot product of that vector with
    the class labels, lies between the smallest and the largest class
    label, both included. *)
Theorem expected_position_within_labels (sort : sorter) (model : Pipeline)
    (features : list (string * list Q)) (out : list Prediction) (r : Prediction) :
  (forall l, sort l ≡ₚ l) ->
  (forall f, f ∈ features -> distribution (predict_proba model (snd f))) ->
  predict_league_table sort model features = Ok out ->
  r ∈ out ->
  (inject_Z (min_label (classes_ model)) <= expected r /\
   expected r <= inject_Z (max_label (classes_ model)))%Q.
Proof.
  intros Hperm Hdist Hout Hr.
  destruct (prediction_row_source sort model features out r Hperm Hout Hr)
    as (f & Hf & _ & He).
  eapply expected_position_between; [apply Hdist|]; eauto.
Qed.

(** ** Ranking Model: ranks *)

Lemma stable_sort_sorts : sorts_by_expected stable_sort.
Proof.
  intros l. split; [apply sort_values_perm|].
  apply sort_values_sorted_for with (R := fun a b => (snd a <= snd b)%Q).
  - intros x y H. now apply Qle_bool_iff.
  - intros x y H. apply Qlt_le_weak, Qnot_le_lt. intros Hle.
    apply Qle_bool_iff in Hle. congruence.
  - intros x y z. apply Qle_trans.
Qed.

Lemma combine_fst_Forall2 {A B C : Type} (P : A -> B -> Prop) (g : A -> C)
    (l : list A) (k : list B) :
  Forall2 P l k -> map fst (combine (map g l) k) = map g l.
Proof. induction 1; simpl; [|f_equal]; auto. Qed.

(** ** Match Parser *)

Lemma split_dash_cons (s : string) : exists h t, split_dash s = h :: t.
Proof.
  destruct s as [|c s]; simpl; [eauto|].
  destruct (Ascii.eqb c "-"); [eauto|]. destruct (split_dash s); eauto.
Qed.

Lemma mapM_map {A B C : Type} (f : B -> result C) (g : A -> B) (l : list A) :
  mapM f (map g l) = mapM (fun x => f (g x)) l.
Proof. induction l as [|x l IH]; simpl; [|rewrite IH]; reflexivity. Qed.

Lemma getcol_expand (df : list RawRow) (k : nat) :
  getcol (str_split_expand (map raw_FT df)) k =
  if k <? split_width df then Ok (map (cell_at (split_width df) k) df)
  else Raise KeyError.
Proof.
  unfold getcol, str_split_expand, split_width. cbn [fst snd].
  destruct (k <? _); [|reflexivity].
  rewrite !map_map. reflexivity.
Qed.

Lemma max_len_ge (parts : list (list cell)) (p : list cell) :
  p ∈ parts -> length p <= max_len parts.
Proof.
  induction parts as [|q parts IH]; intros Hin; [inversion Hin|].
  simpl. apply elem_of_cons in Hin as [->|Hin]; [lia|].
  specialize (IH Hin). lia.
Qed.

Lemma astype_str (s : string) (z : Z) :
  astype_int_cell (CStr s) = Ok z <-> int64_of s z.
Proof.
  unfold astype_int_cell, int64_of. destruct (py_int s) as [z'|].
  - destruct (Z.leb_spec int64_min z') as [Hlo|Hlo],
             (Z.leb_spec z' int64_max) as [Hhi|Hhi]; simpl; split;
      try discriminate;
      try (intros [Heq Hr]; injection Heq as <-; first [reflexivity | lia]).
    intros Heq. injection Heq as <-. auto.
  - split; [discriminate|intros [? _]; discriminate].
Qed.

Lemma astype_cell0 (w : nat) (r : RawRow) (z : Z) :
  astype_int_cell (cell_at w 0 r) = Ok z <->
  exists s a rest, raw_FT r = Some s /\ split_dash s = a :: rest /\ int64_of a z.
Proof.
  unfold cell_at. destruct (raw_FT r) as [s|]; cbn [split_cell].
  - destruct (split_dash s) as [|a rest] eqn:Hs; cbn [map pad app length nth].
    + rewrite nth_repeat. split; [discriminate|].
      intros (s' & a & rest & H1 & H2 & _). congruence.
    + rewrite astype_str. split.
      * intros H. exists s, a, rest. auto.
      * intros (s' & a' & rest' & H1 & H2 & H3). congruence.
  - split.
    + destruct w; discriminate.
    + intros (s & a & rest & H & _). discriminate.
Qed.

Lemma astype_cell1 (w : nat) (r : RawRow) (z : Z) :
  astype_int_cell (cell_at w 1 r) = Ok z <->
  exists s a b rest,
    raw_FT r = Some s /\ split_dash s = a :: b :: rest /\ int64_of b z.
Proof.
  unfold cell_at. destruct (raw_FT r) as [s|]; cbn [split_cell].
  - destruct (split_dash s) as [|a [|b rest]] eqn:Hs; cbn [map pad app length nth].
    + rewrite nth_repeat. split; [discriminate|].
      intros (s' & a & b & rest & H1 & H2 & _). congruence.
    + rewrite nth_repeat. split; [discriminate|].
      intros (s' & a' & b & rest & H1 & H2 & _). congruence.
    + rewrite astype_str. split.
      * intros H. exists s, a, b, rest. auto.
      * intros (s' & a' & b' & rest' & H1 & H2 & H3). congruence.
  - split.
    + destruct w as [|[|w]]; discriminate.
    + intros (s & a & b & rest & H & _). discriminate.
Qed.

Lemma score_goals_width (df : list RawRow) (r : RawRow) (hg ag : Z) :
  r ∈ df -> score_goals r hg ag -> 2 <= split_width df.
Proof.
  intros Hin (s & a & b & rest & Hs & Hsplit & _).
  unfold split_width.
  assert (split_cell (raw_FT r) ∈ map split_cell (map raw_FT df)) as Hp.
  { rewrite map_map. apply list_elem_of_fmap. eauto. }
  apply max_len_ge in Hp. rewrite Hs in Hp. simpl in Hp.
  rewrite Hsplit in Hp. simpl in Hp. lia.
Qed.

Lemma split_width_nil (df : list RawRow) : 0 < split_width df -> df <> [].
Proof. intros H ->. unfold split_width in H. simpl in H. lia. Qed.

Lemma assign_goals_scores (w : nat) (df : list RawRow) (hs aws : list Z) :
  Forall2 (fun r z => astype_int_cell (cell_at w 0 r) = Ok z) df hs ->
  Forall2 (fun r z => astype_int_cell (cell_at w 1 r) = Ok z) df aws ->
  Forall2 (fun r m => exists hg ag, score_goals r hg ag /\ m = augment r hg ag)
          df (assign_goals df hs aws).
Proof.
  intros H0. revert aws. induction H0 as [|r h df hs Hh H0 IH]; intros aws H1.
  - inversion H1. constructor.
  - inversion H1 as [|? a ? aws' Ha H1']; subst. simpl. constructor; [|now apply IH].
    exists h, a. split; [|reflexivity].
    apply astype_cell0 in Hh as (s & x & rest & Hs & Hsplit & Hx).
    apply astype_cell1 in Ha as (s' & x' & b & rest' & Hs' & Hsplit' & Hb).
    assert (s' = s) as -> by congruence.
    exists s, x, b, rest'. repeat split; try tauto; try apply Hx; try apply Hb.
    congruence.
Qed.

Lemma scores_assign_goals (w : nat) (df : list RawRow) (out : list Match) :
  Forall2 (fun r m => exists hg ag, score_goals r hg ag /\ m = augment r hg ag) df out ->
  Forall2 (fun r z => astype_int_cell (cell_at w 0 r) = Ok z) df (map home_goals out) /\
  Forall2 (fun r z => astype_int_cell (cell_at w 1 r) = Ok z) df (map away_goals out) /\
  out = assign_goals df (map home_goals out) (map away_goals out).
Proof.
  induction 1 as [|r m df out (hg & ag & Hsc & ->) Hrest (IH0 & IH1 & IH2)]; simpl.
  - repeat constructor.
  - destruct Hsc as (s & a & b & rest & Hs & Hsplit & Ha & Hb).
    split; [|split].
    + constructor; [|exact IH0]. apply astype_cell0. exists s, a, (b :: rest). auto.
    + constructor; [|exact IH1]. apply astype_cell1. exists s, a, b, rest. auto.
    + f_equal. exact IH2.
Qed.

Lemma str_accessor_inv (col c : list (option string)) :
  str_accessor col = Ok c -> c = col.
Proof.
  unfold str_accessor. destruct col; [congruence|].
  destruct (existsb _ _); congruence.
Qed.

Lemma str_accessor_present (df : list RawRow) (r : RawRow) (s : string) :
  r ∈ df -> raw_FT r = Some s ->
  str_accessor (map raw_FT df) = Ok (map raw_FT df).
Proof.
  intros Hin Hs. unfold str_accessor.
  destruct (map raw_FT df) as [|c col] eqn:Hcol; [reflexivity|].
  rewrite <- Hcol.
  assert (existsb (fun c => match c with Some _ => true | None => false end)
                  (map raw_FT df) = true) as ->; [|reflexivity].
  apply existsb_exists. exists (Some s). split; [|reflexivity].
  apply in_map_iff. exists r. split; [exact Hs|]. now apply list_elem_of_In.
Qed.


(** The steps of [parse_match_results] once the accessor has let the column
    through. *)
Lemma parse_match_results_steps (df : list RawRow) :
  str_accessor (map raw_FT df) = Ok (map raw_FT df) ->
  parse_match_results df =
  let w := split_width df in
  if 0 <? w then
    hs ← mapM astype_int_cell (map (cell_at w 0) df);
    if 1 <? w then
      aws ← mapM astype_int_cell (map (cell_at w 1) df);
      Ok (assign_goals df hs aws)
    else Raise KeyError
  else Raise KeyError.
Proof.
  intros Hacc. unfold parse_match_results. rewrite Hacc.
  cbn [mbind result_bind]. rewrite !getcol_expand. cbv zeta.
  destruct (0 <? split_width df); [|reflexivity].
  cbn [mbind result_bind]. unfold astype_int.
  destruct (mapM astype_int_cell (map (cell_at (split_width df) 0) df)); [|reflexivity].
  destruct (1 <? split_width df); reflexivity.
Qed.

Lemma parse_match_results_accessor (df : list RawRow) (out : list Match) :
  parse_match_results df = Ok out ->
  str_accessor (map raw_FT df) = Ok (map raw_FT df).
Proof.
  unfold parse_match_results.
  destruct (str_accessor (map raw_FT df)) as [col|] eqn:Hacc; [|discriminate].
  now rewrite (str_accessor_inv _ _ Hacc).
Qed.

Lemma parse_match_results_complete (df : list RawRow) (out : list Match) :
  df <> [] ->
  Forall2 (fun r m => exists hg ag, score_goals r hg ag /\ m = augment r hg ag) df out ->
  parse_match_results df = Ok out.
Proof.
  intros Hne Hall.
  assert (exists r hg ag, r ∈ df /\ score_goals r hg ag) as (r & hg & ag & Hin & Hsc).
  { destruct Hall as [|r m df' out' (hg & ag & Hsc & _) _]; [congruence|].
    exists r, hg, ag. split; [constructor|exact Hsc]. }
  rewrite parse_match_results_steps.
  2:{ destruct Hsc as (s & _ & _ & _ & Hs & _). eapply str_accessor_present; eauto. }
  cbv zeta. set (w := split_width df).
  assert (2 <= w) as Hw by (eapply score_goals_width; eauto).
  destruct (scores_assign_goals w df out Hall) as (H0 & H1 & Heq).
  destruct (Nat.ltb_spec 0 w); [|lia]. destruct (Nat.ltb_spec 1 w); [|lia].
  unfold mbind, result_bind. rewrite !mapM_map.
  apply mapM_Ok in H0, H1. rewrite H0, H1. now rewrite <- Heq.
Qed.

Lemma parse_match_results_sound (df : list RawRow) (out : list Match) :
  parse_match_results df = Ok out ->
  Forall2 (fun r m => exists hg ag, score_goals r hg ag /\ m = augment r hg ag) df out.
Proof.
  intros H. pose proof (parse_match_results_accessor df out H) as Hacc.
  rewrite (parse_match_results_steps df Hacc) in H. cbv zeta in H.
  set (w := split_width df) in H.
  destruct (Nat.ltb_spec 0 w) as [H0|]; [|discriminate].
  unfold mbind, result_bind in H.
  destruct (mapM astype_int_cell (map (cell_at w 0) df)) as [hs|] eqn:Hhs; [|discriminate].
  destruct (Nat.ltb_spec 1 w) as [H1|]; [|discriminate].
  destruct (mapM astype_int_cell (map (cell_at w 1) df)) as [aws|] eqn:Haws; [|discriminate].
  injection H as <-.
  rewrite mapM_map in Hhs, Haws. apply mapM_Ok in Hhs, Haws.
  eapply assign_goals_scores; eauto.
Qed.


(** *** The exceptions of the parser *)










(** ** Training Set Builder: summaries *)

Lemma season_summary_Ok (read_csv : reader) (f : string) (s : list Standing) :
  season_summary read_csv f = Ok s <->
  exists raw ms, read_csv f = Ok raw /\ parse_match_results raw = Ok ms /\
                 summarise_season ms = Ok s.
Proof.
  unfold season_summary, mbind, result_bind. split.
  - destruct (read_csv f) as [raw|] eqn:Hraw; [|discriminate].
    destruct (parse_match_results raw) as [ms|] eqn:Hms; [|discriminate].
    intros H. exists raw, ms. repeat split; auto.
  - intros (raw & ms & -> & -> & H). exact H.
Qed.

Lemma summary_teams_NoDup (ms : list Match) (tbl : list Standing) :
  summarise_season ms = Ok tbl -> NoDup (map (fun r : Standing => team r) tbl).
Proof.
  intros Hs. pose proof (summary_rows_perm ms tbl Hs) as Hperm.
  assert (map (fun r : Standing => team r) tbl
          ≡ₚ map fst (fold_left record_match ms [])) as ->.
  { transitivity (map team (map row tbl)); [now rewrite map_map|].
    rewrite Hperm, map_map. erewrite map_ext; [reflexivity|]. now intros [t s]. }
  apply fold_record_match_keys_NoDup. constructor.
Qed.

Lemma summary_nonempty (ms : list Match) (tbl : list Standing) :
  summarise_season ms = Ok tbl -> tbl <> [].
Proof.
  intros Hs Hnil. pose proof (summary_rows_perm ms tbl Hs) as Hperm.
  apply summarise_season_Ok in Hs as [Hne _].
  apply teams_nonempty in Hne. subst tbl. simpl in Hperm.
  apply Permutation_nil in Hperm. apply map_eq_nil in Hperm. contradiction.
Qed.

Lemma season_summary_NoDup (read_csv : reader) (f : string) (s : list Standing) :
  season_summary read_csv f = Ok s ->
  NoDup (map (fun r : Standing => team r) s) /\ s <> [].
Proof.
  intros (raw & ms & _ & _ & Hs)%season_summary_Ok.
  split; [eapply summary_teams_NoDup|eapply summary_nonempty]; eauto.
Qed.


Lemma NoDup_team_inj (l : list Standing) (p r : Standing) :
  NoDup (map (fun r : Standing => team r) l) ->
  p ∈ l -> r ∈ l -> team p = team r -> p = r.
Proof.
  induction l as [|x l IH]; intros Hnd Hp Hr Heq; [inversion Hp|].
  simpl in Hnd. apply NoDup_cons in Hnd as [Hx Hnd].
  apply elem_of_cons in Hp as [->|Hp]; apply elem_of_cons in Hr as [->|Hr].
  - reflexivity.
  - exfalso. apply Hx. rewrite Heq. apply list_elem_of_fmap. eauto.
  - exfalso. apply Hx. rewrite <- Heq. apply list_elem_of_fmap. eauto.
  - now apply IH.
Qed.

Lemma find_team (l : list Standing) (t : string) :
  match find (fun r : Standing => String.eqb t (team r)) l with
  | Some r => r ∈ l /\ team r = t
  | None => forall r : Standing, r ∈ l -> team r <> t
  end.
Proof.
  induction l as [|x l IH]; simpl.
  - intros r Hr. inversion Hr.
  - destruct (String.eqb_spec t (team x)) as [->|Hne].
    + split; [constructor|reflexivity].
    + destruct (find _ l) as [r|].
      * destruct IH. split; [now constructor|assumption].
      * intros r [->|Hr]%elem_of_cons; [congruence|now apply IH].
Qed.

Lemma in_index_spec (l : list Standing) (t : string) :
  in_index l t = true <-> exists r : Standing, r ∈ l /\ team r = t.
Proof.
  unfold in_index. rewrite existsb_exists. split.
  - intros (r & Hr & Heq). apply String.eqb_eq in Heq.
    exists r. split; [now apply list_elem_of_In|auto].
  - intros (r & Hr & <-). exists r. split; [now apply list_elem_of_In|].
    apply String.eqb_refl.
Qed.

Lemma loc_self (l : list Standing) (r : Standing) :
  NoDup (map (fun r : Standing => team r) l) -> r ∈ l -> loc l (team r) = Ok r.
Proof.
  intros Hnd Hr. unfold loc. pose proof (find_team l (team r)) as Hf.
  destruct (find _ l) as [p|].
  - destruct Hf as [Hp Heq]. f_equal. eapply NoDup_team_inj; eauto.
  - exfalso. now apply (Hf r Hr).
Qed.

(** One example of the inner loop. *)
Lemma season_pair_row (prev : list Standing) (row : Standing) :
  NoDup (map (fun r : Standing => team r) prev) ->
  exists feats,
    (feats ← (if in_index prev (team row)
              then r ← loc prev (team row); Ok (real_features r)
              else Ok (default_features (bottom_three prev)));
     Ok (feats, position row)) = Ok (feats, position row) /\
    (forall p : Standing, p ∈ prev -> team p = team row -> feats = real_features p) /\
    ((forall p : Standing, p ∈ prev -> team p <> team row) ->
     feats = default_features (bottom_three prev)).
Proof.
  intros Hnd. destruct (in_index prev (team row)) eqn:Hin.
  - apply in_index_spec in Hin as (r & Hr & Heq).
    exists (real_features r). rewrite <- Heq, (loc_self prev r Hnd Hr).
    split; [reflexivity|]. split.
    + intros p Hp Hpe. f_equal. symmetry. eapply NoDup_team_inj; eauto.
    + intros Hno. exfalso. now apply (Hno r Hr).
  - exists (default_features (bottom_three prev)). split; [reflexivity|]. split.
    + intros p Hp Hpe. exfalso.
      assert (in_index prev (team row) = true) as Ht by (apply in_index_spec; eauto).
      congruence.
    + reflexivity.
Qed.

Lemma season_pair_Ok (prev curr : list Standing) :
  NoDup (map (fun r : Standing => team r) prev) ->
  exists block, season_pair prev curr = Ok block /\
                Forall2 (example_of prev) curr block.
Proof.
  intros Hnd. unfold season_pair.
  induction curr as [|row curr (block & Hb & Hall)]; simpl.
  - exists []. split; [reflexivity|constructor].
  - destruct (season_pair_row prev row Hnd) as (feats & Hrow & Hreal & Hdef).
    exists ((feats, position row) :: block). split.
    + unfold mbind at 1, result_bind at 1. rewrite Hrow.
      unfold mbind at 1, result_bind at 1. now rewrite Hb.
    + constructor; [|exact Hall]. split; [reflexivity|]. split; assumption.
Qed.

(** ** Training Set Builder: the loops *)

Lemma load_seasons_spec (read_csv : reader) (files : list string)
    (m0 : gmap string (list Standing)) :
  match load_seasons read_csv files m0 with
  | Ok m =>
      (forall f, f ∈ files -> exists s, season_summary read_csv f = Ok s /\ m !! f = Some s) /\
      (forall f, f ∉ files -> m !! f = m0 !! f)
  | Raise _ => exists f e, f ∈ files /\ season_summary read_csv f = Raise e
  end.
Proof.
  revert m0. induction files as [|f files IH]; intros m0; simpl.
  - split; [intros f Hf; inversion Hf|reflexivity].
  - unfold mbind, result_bind.
    destruct (season_summary read_csv f) as [s|e] eqn:Hs.
    + specialize (IH (<[f:=s]> m0)).
      destruct (load_seasons read_csv files (<[f:=s]> m0)) as [m|e'].
      * destruct IH as [IH1 IH2]. split.
        -- intros g Hg. destruct (decide (g ∈ files)) as [Hin|Hnin]; [now apply IH1|].
           apply elem_of_cons in Hg as [->|Hg]; [|contradiction].
           exists s. split; [exact Hs|]. rewrite (IH2 f Hnin). apply lookup_insert_eq.
        -- intros g Hg. apply not_elem_of_cons in Hg as [Hne Hg].
           rewrite (IH2 g Hg). now apply lookup_insert_ne.
      * destruct IH as (g & e0 & Hg & He). exists g, e0. split; [now constructor|exact He].
    + exists f, e. split; [constructor|exact Hs].
Qed.

Lemma getitem_Some (m : gmap string (list Standing)) (k : string) (s : list Standing) :
  m !! k = Some s -> getitem m k = Ok s.
Proof. intros H. unfold getitem. now rewrite H. Qed.

Lemma training_loop_spec (read_csv : reader) (m : gmap string (list Standing))
    (files : list string) (range : list nat) (X0 : list (list Q)) (y0 : list Z) :
  (forall f, f ∈ files -> exists s, season_summary read_csv f = Ok s /\ m !! f = Some s) ->
  (forall i, i ∈ range -> S i < length files) ->
  exists blocks,
    training_loop m files range X0 y0
      = Ok (X0 ++ map fst (concat blocks), y0 ++ map snd (concat blocks)) /\
    Forall2 (pair_block read_csv files) range blocks.
Proof.
  intros Hm. revert X0 y0. induction range as [|i range IH]; intros X0 y0 Hrange.
  - exists []. simpl. rewrite !app_nil_r. split; [reflexivity|constructor].
  - assert (S i < length files) as Hi by (apply Hrange; constructor).
    destruct (lookup_lt_is_Some_2 files i ltac:(lia)) as [fp Hfp].
    destruct (lookup_lt_is_Some_2 files (S i) Hi) as [fc Hfc].
    destruct (Hm fp) as (prev & Hprev & Hmp); [eapply list_elem_of_lookup_2; eauto|].
    destruct (Hm fc) as (curr & Hcurr & Hmc); [eapply list_elem_of_lookup_2; eauto|].
    destruct (season_summary_NoDup _ _ _ Hprev) as [Hnd _].
    destruct (season_pair_Ok prev curr Hnd) as (block & Hblock & Hex).
    destruct (IH (X0 ++ map fst block) (y0 ++ map snd block)) as (blocks & Hloop & Hall).
    { intros j Hj. apply Hrange. now constructor. }
    exists (block :: blocks). split.
    + cbn [training_loop]. unfold index, mbind, result_bind.
      rewrite Hfp, (getitem_Some _ _ _ Hmp).
      replace (i + 1) with (S i) by lia.
      rewrite Hfc, (getitem_Some _ _ _ Hmc), Hblock, Hloop.
      cbn [concat]. rewrite !map_app, !app_assoc. reflexivity.
    + constructor; [|exact Hall]. exists fp, fc, prev, curr. auto 10.
Qed.

Lemma newcomers_spec (summary : list Standing) (t : string) :
  t ∈ newcomers summary <-> t ∈ promoted /\ t ∉ teams_of summary.
Proof.
  unfold newcomers. rewrite list_elem_of_In, filter_In, <- list_elem_of_In.
  rewrite negb_true_iff, <- not_true_iff_false, existsb_exists.
  split; intros [Hp Hn]; (split; [exact Hp|]).
  - intros Hin. apply Hn. exists t. rewrite <- list_elem_of_In.
    split; [exact Hin|apply String.eqb_refl].
  - intros (x & Hx & Heq). apply String.eqb_eq in Heq. subst x.
    apply Hn. now apply list_elem_of_In.
Qed.

Lemma promoted_NoDup : NoDup promoted.
Proof.
  apply NoDup_ListNoDup. unfold promoted.
  repeat constructor; simpl; intuition discriminate.
Qed.

Lemma newcomers_NoDup (summary : list Standing) : NoDup (newcomers summary).
Proof.
  apply NoDup_ListNoDup, List.NoDup_filter, NoDup_ListNoDup, promoted_NoDup.
Qed.

Lemma mapM_loc (summary l : list Standing) :
  NoDup (teams_of summary) -> (forall r, r ∈ l -> r ∈ summary) ->
  mapM (fun r : Standing => r' ← loc summary (team r); Ok (team r, real_features r')) l
  = Ok (map (fun r : Standing => (team r, real_features r)) l).
Proof.
  intros Hnd. induction l as [|r l IH]; intros Hsub; simpl; [reflexivity|].
  unfold mbind at 1, result_bind at 1.
  rewrite (loc_self summary r Hnd) by (apply Hsub; constructor).
  unfold mbind at 1, result_bind at 1.
  rewrite IH; [reflexivity|]. intros x Hx. apply Hsub. now constructor.
Qed.

Lemma latest_features_spec (last_summary : list Standing) :
  NoDup (teams_of last_summary) ->
  latest_features last_summary
  = Ok (map (fun r : Standing => (team r, real_features r)) last_summary ++
        map (fun t => (t, default_features (bottom_three last_summary)))
            (newcomers last_summary)).
Proof.
  intros Hnd. unfold latest_features.
  rewrite mapM_map, (mapM_loc last_summary last_summary Hnd) by auto.
  reflexivity.
Qed.

Lemma last_file_spec (files : list string) :
  match last_file files with
  | Ok f => last files = Some f /\ f ∈ files
  | Raise _ => files = []
  end.
Proof.
  unfold last_file. destruct (last files) as [f|] eqn:Hlast.
  - split; [reflexivity|]. apply last_Some in Hlast as [l ->]. set_solver.
  - now apply last_None.
Qed.

(** The outcome of [prepare_training_data], unfolded once and for all. *)
Lemma prepare_training_data_spec (read_csv : reader) (files : list string) :
  match prepare_training_data read_csv files with
  | Ok (X, y, latest) =>
      exists blocks f_last last_summary,
        X = map fst (concat blocks) /\ y = map snd (concat blocks) /\
        Forall2 (pair_block read_csv files) (seq 0 (length files - 1)) blocks /\
        last files = Some f_last /\
        season_summary read_csv f_last = Ok last_summary /\
        latest = map (fun r : Standing => (team r, real_features r)) last_summary ++
                 map (fun t => (t, default_features (bottom_three last_summary)))
                     (newcomers last_summary)
  | Raise _ =>
      files = [] \/ exists f e, f ∈ files /\ season_summary read_csv f = Raise e
  end.
Proof.
  unfold prepare_training_data.
  pose proof (load_seasons_spec read_csv files ∅) as Hload.
  unfold mbind at 1, result_bind at 1.
  destruct (load_seasons read_csv files ∅) as [m|e]; [|now right].
  destruct Hload as [Hm _].
  destruct (training_loop_spec read_csv m files (seq 0 (length files - 1)) [] [] Hm)
    as (blocks & Hloop & Hblocks).
  { intros i Hi. apply list_elem_of_In, in_seq in Hi. lia. }
  rewrite Hloop. unfold mbind at 1, result_bind at 1. cbn [app].
  pose proof (last_file_spec files) as Hlast.
  unfold mbind at 1, result_bind at 1.
  destruct (last_file files) as [f_last|e]; [|now left].
  destruct Hlast as [Hlast Hin].
  destruct (Hm f_last Hin) as (last_summary & Hsum & Hget).
  unfold mbind at 1, result_bind at 1. rewrite (getitem_Some _ _ _ Hget).
  destruct (season_summary_NoDup _ _ _ Hsum) as [Hnd _].
  rewrite (latest_features_spec last_summary Hnd).
  unfold mbind, result_bind.
  exists blocks, f_last, last_summary. auto 10.
Qed.

(** ** Training Set Builder: training examples *)

Lemma pair_block_lookup (read_csv : reader) (files : list string)
    (blocks : list (list (list Q * Z))) (i : nat) (f_prev f_curr : string) :
  Forall2 (pair_block read_csv files) (seq 0 (length files - 1)) blocks ->
  files !! i = Some f_prev -> files !! S i = Some f_curr ->
  exists prev curr block,
    season_summary read_csv f_prev = Ok prev /\
    season_summary read_csv f_curr = Ok curr /\
    blocks !! i = Some block /\
    Forall2 (example_of prev) curr block.
Proof.
  intros Hall Hp Hc.
  assert (i < length files - 1) as Hi by (apply lookup_lt_Some in Hc; lia).
  destruct (Forall2_lookup_l _ _ _ i i Hall) as (block & Hb & Hpair).
  { rewrite lookup_seq_lt by exact Hi. reflexivity. }
  destruct Hpair as (fp & fc & prev & curr & Hfp & Hfc & Hprev & Hcurr & Hex).
  assert (fp = f_prev) as -> by congruence. assert (fc = f_curr) as -> by congruence.
  exists prev, curr, block. auto.
Qed.

(** C1. For every consecutive pair of seasons (i, i+1) a successful
    [prepare_training_data] holds one block of training examples with
    exactly one example per row of season i+1's standing, in standing
    order; the label of each example is that team's position in season
    i+1, and when the team has a row in season i's standing the feature
    vector is that row's (points, wins, draws, losses, goals_for,
    goals_against, goal_diff). *)
Theorem prepare_training_data_examples (read_csv : reader) (files : list string)
    (X : list (list Q)) (y : list Z) (latest : list (string * list Q)) :
  prepare_training_data read_csv files = Ok (X, y, latest) ->
  exists blocks : list (list (list Q * Z)),
    X = map fst (concat blocks) /\ y = map snd (concat blocks) /\
    length blocks = length files - 1 /\
    forall i f_prev f_curr,
      files !! i = Some f_prev -> files !! S i = Some f_curr ->
      exists prev curr block,
        season_summary read_csv f_prev = Ok prev /\
        season_summary read_csv f_curr = Ok curr /\
        blocks !! i = Some block /\
        NoDup (teams_of curr) /\
        length block = length curr /\
        forall j (row : Standing), curr !! j = Some row ->
          exists feats,
            block !! j = Some (feats, position row) /\
            forall p : Standing, p ∈ prev -> team p = team row ->
              feats = [ inject_Z (points (stats p)); inject_Z (wins (stats p));
                        inject_Z (draws (stats p)); inject_Z (losses (stats p));
                        inject_Z (goals_for (stats p));
                        inject_Z (goals_against (stats p));
                        inject_Z (goal_diff p) ].
Proof.
  intros Hrun. pose proof (prepare_training_data_spec read_csv files) as Hspec.
  rewrite Hrun in Hspec.
  destruct Hspec as (blocks & f_last & last_summary & HX & Hy & Hblocks & _).
  exists blocks. split; [exact HX|]. split; [exact Hy|]. split.
  { rewrite <- (Forall2_length _ _ _ Hblocks). apply length_seq. }
  intros i f_prev f_curr Hp Hc.
  destruct (pair_block_lookup _ _ _ _ _ _ Hblocks Hp Hc)
    as (prev & curr & block & Hprev & Hcurr & Hb & Hex).
  exists prev, curr, block. repeat split; try assumption.
  { now apply season_summary_NoDup in Hcurr. }
  { symmetry. eapply Forall2_length; eauto. }
  intros j row Hj.
  destruct (Forall2_lookup_l _ _ _ j row Hex Hj) as ([feats label] & Hbj & Hlabel & Hreal & _).
  simpl in Hlabel, Hreal. subst label.
  exists feats. split; [exact Hbj|]. intros p Hin Hteam. now apply Hreal.
Qed.

(** ** Training Set Builder: the promoted-team default *)

Lemma ascending_total (a b : Standing) : ascending a b = true \/ ascending b a = true.
Proof. apply lex_leb_total. Qed.

Lemma ascending_trans (a b c : Standing) :
  ascending a b = true -> ascending b c = true -> ascending a c = true.
Proof. unfold ascending. intros H1 H2. eapply lex_leb_trans; eauto. Qed.

Lemma bottom_three_lowest (summary : list Standing) :
  summary ≡ₚ bottom_three summary ++ skipn 3 (sort_values ascending summary) /\
  length (bottom_three summary) = Nat.min 3 (length summary) /\
  (forall b r : Standing,
     b ∈ bottom_three summary -> r ∈ skipn 3 (sort_values ascending summary) ->
     lex_leb (sort_key b) (sort_key r) = true).
Proof.
  unfold bottom_three. set (sorted := sort_values ascending summary).
  assert (sorted ≡ₚ summary) as Hperm by apply sort_values_perm.
  split; [now rewrite firstn_skipn|]. split.
  - rewrite length_take, (Permutation_length Hperm). reflexivity.
  - intros b r [i Hi]%list_elem_of_lookup [j Hj]%list_elem_of_lookup.
    pose proof (lookup_lt_Some _ _ _ Hi) as Hlen. rewrite length_take in Hlen.
    rewrite lookup_take_lt in Hi by lia. rewrite lookup_drop in Hj.
    pose proof (sort_values_sorted ascending summary ascending_total ascending_trans)
      as Hsorted.
    apply (StronglySorted_lookup _ _ Hsorted i (3 + j) b r Hi Hj). lia.
Qed.

Lemma sum_Q_inject (l : list Z) : (sum_Q (map inject_Z l) == inject_Z (sum_Z l))%Q.
Proof.
  induction l as [|z l IH]; simpl; [reflexivity|].
  rewrite IH, inject_Z_plus. reflexivity.
Qed.

Lemma vec_sum_columns (rows : list Standing) :
  vec_sum (map feature_vector rows)
  = map (fun c => sum_Q (map inject_Z (map c rows))) feature_cols.
Proof.
  induction rows as [|r rows IH]; [reflexivity|].
  cbn [map vec_sum fold_right]. change (fold_right vec_add (repeat 0%Q 7)) with vec_sum.
  rewrite IH. reflexivity.
Qed.

(** The column means of the source are the field-wise mean of the
    specification. *)
Lemma default_features_fieldwise (bottom : list Standing) :
  Forall2 Qeq (default_features bottom) (fieldwise_mean bottom).
Proof.
  unfold default_features, fieldwise_mean. rewrite vec_sum_columns, map_map.
  induction feature_cols as [|c cols IH]; simpl; constructor; [|exact IH].
  unfold mean. rewrite sum_Q_inject, length_map. reflexivity.
Qed.

Lemma real_features_vector (r : Standing) : real_features r = feature_vector r.
Proof. reflexivity. Qed.

(** C2 (as amended). A team of season i+1's standing that has no row in
    season i's standing gets as feature vector the field-wise arithmetic
    mean of the lowest rows of season i in the order (points, goal_diff,
    goals_for): three of them, or all of them when season i has fewer than
    three teams. *)
Theorem prepare_training_data_promoted (read_csv : reader) (files : list string)
    (X : list (list Q)) (y : list Z) (latest : list (string * list Q)) :
  prepare_training_data read_csv files = Ok (X, y, latest) ->
  exists blocks : list (list (list Q * Z)),
    X = map fst (concat blocks) /\ y = map snd (concat blocks) /\
    forall i f_prev f_curr,
      files !! i = Some f_prev -> files !! S i = Some f_curr ->
      exists prev curr block,
        season_summary read_csv f_prev = Ok prev /\
        season_summary read_csv f_curr = Ok curr /\
        blocks !! i = Some block /\
        forall j (row : Standing), curr !! j = Some row ->
          (forall p : Standing, p ∈ prev -> team p <> team row) ->
          exists feats,
            block !! j = Some (feats, position row) /\
            mean_of_lowest (Nat.min 3 (length prev)) prev feats.
Proof.
  intros Hrun. pose proof (prepare_training_data_spec read_csv files) as Hspec.
  rewrite Hrun in Hspec.
  destruct Hspec as (blocks & f_last & last_summary & HX & Hy & Hblocks & _).
  exists blocks. split; [exact HX|]. split; [exact Hy|].
  intros i f_prev f_curr Hp Hc.
  destruct (pair_block_lookup _ _ _ _ _ _ Hblocks Hp Hc)
    as (prev & curr & block & Hprev & Hcurr & Hb & Hex).
  exists prev, curr, block. repeat split; try assumption.
  intros j row Hj Hnew.
  destruct (Forall2_lookup_l _ _ _ j row Hex Hj) as ([feats label] & Hbj & Hlabel & _ & Hdef).
  simpl in Hlabel, Hdef. subst label. rewrite (Hdef Hnew) in Hbj.
  eexists. split; [exact Hbj|].
  destruct (bottom_three_lowest prev) as (Hperm & Hlen & Hlow).
  exists (bottom_three prev), (skipn 3 (sort_values ascending prev)).
  repeat split; try assumption. apply default_features_fieldwise.
Qed.

Lemma two_team_history_run :
  prepare_training_data two_team_history ["s1"; "s2"]
  = Ok (two_team_X, two_team_y, two_team_latest).
Proof. reflexivity. Qed.

Lemma prepare_training_data_examples_witness :
  exists blocks : list (list (list Q * Z)),
    two_team_X = map fst (concat blocks) /\ two_team_y = map snd (concat blocks) /\
    length blocks = 1.
Proof.
  destruct (prepare_training_data_examples two_team_history ["s1"; "s2"]
              two_team_X two_team_y two_team_latest eq_refl)
    as (blocks & HX & Hy & Hlen & _).
  exists blocks. split; [exact HX|]. split; [exact Hy|exact Hlen].
Defined.

Lemma prepare_training_data_promoted_witness :
  exists blocks : list (list (list Q * Z)),
    two_team_X = map fst (concat blocks) /\ two_team_y = map snd (concat blocks).
Proof.
  destruct (prepare_training_data_promoted two_team_history ["s1"; "s2"]
              two_team_X two_team_y two_team_latest eq_refl)
    as (blocks & HX & Hy & _).
  exists blocks. split; [exact HX|exact Hy].
Defined.

(** With a first season of two teams the newcomer "C" of the second season
    gets the mean of those two rows, which is not a mean of three rows of
    that season. *)
Lemma prepare_training_data_promoted_two_teams :
  prepare_training_data two_team_history ["s1"; "s2"]
    = Ok (two_team_X, two_team_y, two_team_latest) /\
  season_summary two_team_history "s1" = Ok two_team_first /\
  season_summary two_team_history "s2" = Ok two_team_second /\
  (forall p : Standing, p ∈ two_team_first -> team p <> "C") /\
  two_team_X !! 0 = Some [3 # 2; 1 # 2; 0 # 2; 1 # 2; 1 # 2; 1 # 2; 0 # 2]%Q /\
  ~ mean_of_lowest 3 two_team_first [3 # 2; 1 # 2; 0 # 2; 1 # 2; 1 # 2; 1 # 2; 0 # 2]%Q.
Proof.
  split; [reflexivity|]. split; [reflexivity|]. split; [reflexivity|]. split.
  { intros p Hp. unfold two_team_first in Hp.
    repeat (apply elem_of_cons in Hp as [->|Hp]; [discriminate|]). inversion Hp. }
  split; [reflexivity|].
  intros (bottom & rest & Hperm & Hlen & _).
  apply Permutation_length in Hperm. rewrite length_app, Hlen in Hperm.
  simpl in Hperm. lia.
Qed.

(** ** Training Set Builder: inference features *)

(** C9. In the inference feature table every team appears exactly once:
    each team of the most recent standing with its own feature vector, and
    a promoted name with the default features exactly when it is absent
    from that standing. *)
Theorem prepare_training_data_latest (read_csv : reader) (files : list string)
    (X : list (list Q)) (y : list Z) (latest : list (string * list Q)) :
  prepare_training_data read_csv files = Ok (X, y, latest) ->
  exists f_last last_summary,
    last files = Some f_last /\
    season_summary read_csv f_last = Ok last_summary /\
    NoDup (map fst latest) /\
    (forall r : Standing, r ∈ last_summary -> (team r, feature_vector r) ∈ latest) /\
    (forall t, t ∈ promoted -> t ∉ teams_of last_summary ->
       exists feats, (t, feats) ∈ latest /\
         mean_of_lowest (Nat.min 3 (length last_summary)) last_summary feats) /\
    (forall t feats, (t, feats) ∈ latest ->
       (exists r : Standing, r ∈ last_summary /\ team r = t /\ feats = feature_vector r) \/
       (t ∈ promoted /\ (t ∉ teams_of last_summary) /\
        mean_of_lowest (Nat.min 3 (length last_summary)) last_summary feats)).
Proof.
  intros Hrun. pose proof (prepare_training_data_spec read_csv files) as Hspec.
  rewrite Hrun in Hspec.
  destruct Hspec as (blocks & f_last & last_summary & _ & _ & _ & Hlast & Hsum & ->).
  destruct (season_summary_NoDup _ _ _ Hsum) as [Hnd _].
  assert (mean_of_lowest (Nat.min 3 (length last_summary)) last_summary
            (default_features (bottom_three last_summary))) as Hmean.
  { destruct (bottom_three_lowest last_summary) as (Hperm & Hlen & Hlow).
    exists (bottom_three last_summary), (skipn 3 (sort_values ascending last_summary)).
    repeat split; try assumption. apply default_features_fieldwise. }
  exists f_last, last_summary. repeat split; try assumption.
  - rewrite map_app, !map_map. cbn [fst]. rewrite map_id.
    apply NoDup_app. split; [exact Hnd|]. split; [|apply newcomers_NoDup].
    intros t Ht Hnew. apply newcomers_spec in Hnew as [_ Hnot]. contradiction.
  - intros r Hr. apply elem_of_app. left.
    apply list_elem_of_fmap. exists r. split; [reflexivity|exact Hr].
  - intros t Hp Hnot. eexists. split; [|exact Hmean].
    apply elem_of_app. right. apply list_elem_of_fmap. exists t.
    split; [reflexivity|]. apply newcomers_spec. auto.
  - intros t feats [Hin|Hin]%elem_of_app.
    + left. apply list_elem_of_fmap in Hin as (r & Heq & Hr).
      injection Heq as -> ->. exists r. auto.
    + right. apply list_elem_of_fmap in Hin as (t' & Heq & Hnew).
      injection Heq as -> ->. apply newcomers_spec in Hnew as [Hp Hnot]. auto.
Qed.

Lemma prepare_training_data_latest_witness :
  exists f_last last_summary,
    last ["s1"; "s2"] = Some f_last /\
    season_summary two_team_history f_last = Ok last_summary /\
    NoDup (map fst two_team_latest).
Proof.
  destruct (prepare_training_data_latest two_team_history ["s1"; "s2"]
              two_team_X two_team_y two_team_latest eq_refl)
    as (f_last & last_summary & Hlast & Hsum & Hnd & _).
  exists f_last, last_summary. split; [exact Hlast|]. split; [exact Hsum|exact Hnd].
Defined.

(** ** Training Set Builder: failures *)



Lemma expected_position_within_labels_witness :
  (inject_Z (min_label [1; 2]%Z) <= 1 /\ 1 <= inject_Z (max_label [1; 2]%Z))%Q.
Proof.
  apply (expected_position_within_labels stable_sort
           (mkPipeline (fun x => x) [1%Z; 2%Z])
           [("A", [0; 1]%Q); ("B", [1; 0]%Q)]
           [mkPrediction 1 "B" 1; mkPrediction 2 "A" 2]
           (mkPrediction 1 "B" 1)).
  - intros l. apply stable_sort_sorts.
  - intros f Hf.
    apply elem_of_cons in Hf as [->|Hf];
      [|apply elem_of_cons in Hf as [->|Hf]; [|inversion Hf]];
      (split; [repeat constructor; discriminate|reflexivity]).
  - reflexivity.
  - constructor.
Defined.

(** ** Match Parser: scores of the plain form *)

Lemma is_digit_spec (c : ascii) :
  is_digit c = true ->
  exists d, digit_val c = Some d /\ (0 <= d <= 9)%Z /\
            is_space c = false /\ Ascii.eqb c "_" = false /\
            Ascii.eqb c "-" = false /\ Ascii.eqb c "+" = false.
Proof.
  unfold is_digit, digit_val, is_space.
  destruct (Nat.leb_spec 48 (nat_of_ascii c)) as [Hlo|]; [|discriminate].
  destruct (Nat.leb_spec (nat_of_ascii c) 57) as [Hhi|]; [|discriminate].
  intros _. eexists. split; [reflexivity|]. split; [lia|].
  assert (forall k : ascii, (nat_of_ascii k < 48 \/ 57 < nat_of_ascii k) ->
                            Ascii.eqb c k = false) as Hother.
  { intros k Hk. destruct (Ascii.eqb_spec c k) as [->|]; [lia|reflexivity]. }
  split; [|repeat split; apply Hother; vm_compute; lia].
  destruct (Nat.leb_spec 9 (nat_of_ascii c)), (Nat.leb_spec (nat_of_ascii c) 13),
    (Nat.eqb_spec (nat_of_ascii c) 32);
    simpl; try reflexivity; lia.
Qed.

Lemma digits_from_plain (s : string) (acc : Z) (flag : bool) :
  all_digits s = true -> s <> EmptyString \/ flag = true ->
  digits_from acc flag s = Some (decimal_from acc s).
Proof.
  revert acc flag. induction s as [|c s IH]; intros acc flag Hd Hne; simpl.
  - destruct Hne as [Hne| ->]; [congruence|reflexivity].
  - simpl in Hd. apply andb_true_iff in Hd as [Hc Hs].
    destruct (is_digit_spec c Hc) as (d & Hv & _ & _ & Hu & _).
    rewrite Hu, Hv. apply IH; auto.
Qed.

Lemma lstrip_plain (s : string) : all_digits s = true -> lstrip s = s.
Proof.
  destruct s as [|c s]; simpl; [reflexivity|].
  intros [Hc _]%andb_true_iff.
  destruct (is_digit_spec c Hc) as (d & _ & _ & Hsp & _). now rewrite Hsp.
Qed.

Lemma rstrip_plain (s : string) : all_digits s = true -> rstrip s = s.
Proof.
  induction s as [|c s IH]; simpl; [reflexivity|].
  intros [Hc Hs]%andb_true_iff. rewrite (IH Hs).
  destruct (is_digit_spec c Hc) as (d & _ & _ & Hsp & _). rewrite Hsp.
  now destruct s.
Qed.

Lemma py_int_plain (s : string) :
  s <> EmptyString -> all_digits s = true -> py_int s = Some (decimal_from 0 s).
Proof.
  intros Hne Hd. unfold py_int, strip. rewrite (lstrip_plain s Hd), (rstrip_plain s Hd).
  destruct s as [|c r]; [congruence|].
  pose proof Hd as Hd'. simpl in Hd'. apply andb_true_iff in Hd' as [Hc _].
  destruct (is_digit_spec c Hc) as (d & _ & _ & _ & _ & Hm & Hp).
  rewrite Hp, Hm. apply digits_from_plain; auto.
Qed.

Lemma decimal_from_bound (s : string) (acc : Z) :
  all_digits s = true -> (0 <= acc)%Z ->
  (0 <= decimal_from acc s < (acc + 1) * 10 ^ Z.of_nat (String.length s))%Z.
Proof.
  revert acc. induction s as [|c s IH]; intros acc Hd Hacc.
  - simpl. lia.
  - simpl in Hd. apply andb_true_iff in Hd as [Hc Hs].
    destruct (is_digit_spec c Hc) as (d & Hv & Hr & _).
    cbn [decimal_from String.length]. rewrite Hv.
    specialize (IH (10 * acc + d)%Z Hs ltac:(lia)).
    rewrite Nat2Z.inj_succ, Z.pow_succ_r by lia.
    assert (0 < 10 ^ Z.of_nat (String.length s))%Z by (apply Z.pow_pos_nonneg; lia).
    nia.
Qed.

Lemma plain_number_int64 (s : string) :
  plain_number s -> int64_of s (decimal_from 0 s).
Proof.
  intros (Hne & Hd & Hlen). split; [now apply py_int_plain|].
  pose proof (decimal_from_bound s 0 Hd ltac:(lia)) as Hb.
  assert (10 ^ Z.of_nat (String.length s) <= 10 ^ 18)%Z
    by (apply Z.pow_le_mono_r; lia).
  unfold int64_min, int64_max. lia.
Qed.

Lemma split_dash_digits (s : string) : all_digits s = true -> split_dash s = [s].
Proof.
  induction s as [|c s IH]; simpl; [reflexivity|].
  intros [Hc Hs]%andb_true_iff.
  destruct (is_digit_spec c Hc) as (d & _ & _ & _ & _ & Hm & _).
  now rewrite Hm, (IH Hs).
Qed.

Lemma split_dash_plain (a b : string) :
  all_digits a = true -> all_digits b = true ->
  split_dash (a ++ "-" ++ b) = [a; b].
Proof.
  intros Ha Hb. change ("-" ++ b)%string with (String "-" b).
  induction a as [|c a IH].
  - change (split_dash (String "-" b) = [EmptyString; b]).
    cbn [split_dash]. now rewrite (split_dash_digits b Hb).
  - change (split_dash (String c (a ++ String "-" b)) = [String c a; b]).
    cbn [all_digits] in Ha. apply andb_true_iff in Ha as [Hc Ha].
    destruct (is_digit_spec c Hc) as (d & _ & _ & _ & _ & Hm & _).
    cbn [split_dash]. now rewrite Hm, (IH Ha).
Qed.

Lemma plain_score_goals (r : RawRow) :
  plain_score r -> exists hg ag, score_goals r hg ag.
Proof.
  intros (a & b & Ha & Hb & Hft).
  exists (decimal_from 0 a), (decimal_from 0 b), (a ++ "-" ++ b)%string, a, b, [].
  split; [exact Hft|]. split.
  - apply split_dash_plain; [apply Ha|apply Hb].
  - split; now apply plain_number_int64.
Qed.

(** On a table with at least one row whose scores all have the plain form
    [<digits>-<digits>], the parser returns. *)
Lemma parse_match_results_plain (df : list RawRow) :
  df <> [] -> Forall plain_score df -> exists out, parse_match_results df = Ok out.
Proof.
  intros Hne Hall.
  assert (exists out,
            Forall2 (fun r m => exists hg ag, score_goals r hg ag /\ m = augment r hg ag)
                    df out) as [out Hout].
  { clear Hne. induction Hall as [|r df Hr _ [out IH]]; [exists []; constructor|].
    destruct (plain_score_goals r Hr) as (hg & ag & Hsc).
    exists (augment r hg ag :: out). constructor; eauto. }
  exists out. now apply parse_match_results_complete.
Qed.

(* ================================================================= *)
(** * Further properties of the pipeline *)

Import Driver Declarative.

(** ** Season Summarizer: each team's row, read off the match list *)

Lemma fold_record_match_field (f : Stats -> Z) (delta : string -> Match -> Z) :
  (forall teams m t,
     f (stats_of (record_match teams m) t) = (f (stats_of teams t) + delta t m)%Z) ->
  forall ms teams t,
    f (stats_of (fold_left record_match ms teams) t)
    = (f (stats_of teams t) + sum_over (delta t) ms)%Z.
Proof.
  intros Hstep ms. induction ms as [|m ms IH]; intros teams t; simpl.
  - unfold sum_over. simpl. lia.
  - rewrite IH, Hstep. unfold sum_over. simpl. lia.
Qed.

Lemma record_match_fields (teams : teams_dict) (m : Match) (t : string) :
  wins (stats_of (record_match teams m) t) = (wins (stats_of teams t) + won t m)%Z /\
  draws (stats_of (record_match teams m) t) = (draws (stats_of teams t) + drew t m)%Z /\
  losses (stats_of (record_match teams m) t) = (losses (stats_of teams t) + lost t m)%Z /\
  goals_for (stats_of (record_match teams m) t)
    = (goals_for (stats_of teams t) + scored t m)%Z /\
  goals_against (stats_of (record_match teams m) t)
    = (goals_against (stats_of teams t) + conceded t m)%Z.
Proof.
  destruct m as [h a ft hg ag].
  unfold record_match, won, drew, lost, scored, conceded, is_home, is_away, ind.
  cbn [team1 team2 home_goals away_goals].
  destruct (Z.gtb_spec hg ag); destruct (Z.ltb_spec hg ag); destruct (Z.eqb_spec hg ag);
    try lia; rewrite !stats_of_update; case_names; simpl; lia.
Qed.

Lemma fold_record_match_tally (ms : list Match) (t : string) :
  stats_of (fold_left record_match ms []) t = tally t ms.
Proof.
  pose proof (fold_record_match_stats ms [] t) as [Hsur _].
  pose proof (fold_record_match_field wins won
                (fun d m k => proj1 (record_match_fields d m k)) ms [] t) as Hw.
  pose proof (fold_record_match_field draws drew
                (fun d m k => proj1 (proj2 (record_match_fields d m k))) ms [] t) as Hd.
  pose proof (fold_record_match_field losses lost
                (fun d m k => proj1 (proj2 (proj2 (record_match_fields d m k)))) ms [] t)
    as Hl.
  pose proof (fold_record_match_field goals_for scored
                (fun d m k => proj1 (proj2 (proj2 (proj2 (record_match_fields d m k)))))
                ms [] t) as Hf.
  pose proof (fold_record_match_field goals_against conceded
                (fun d m k => proj2 (proj2 (proj2 (proj2 (record_match_fields d m k)))))
                ms [] t) as Ha.
  unfold surplus in Hsur.
  change (stats_of [] t) with default_stats in *. cbn [default_stats points wins draws
    losses goals_for goals_against] in *.
  unfold tally. destruct (stats_of (fold_left record_match ms []) t) as [p w d l gf ga].
  cbn [points wins draws losses goals_for goals_against] in *.
  f_equal; lia.
Qed.

(** X1 (summary rows). Each row of a summary is the tally of its team over
    the match list. *)
Theorem summarise_season_row_is_tally (ms : list Match) (tbl : list Standing)
    (r : Standing) :
  summarise_season ms = Ok tbl -> r ∈ tbl ->
  stats r = tally (team r) ms /\
  goal_diff r = (sum_over (scored (team r)) ms - sum_over (conceded (team r)) ms)%Z.
Proof.
  intros Hs Hr. destruct (summary_row_entry ms tbl r Hs Hr) as [Hst Hgd].
  rewrite fold_record_match_tally in Hst. split; [exact Hst|].
  rewrite Hgd, Hst. reflexivity.
Qed.

(** ** Season Summarizer: which teams, and in which order *)

Lemma add_key_elem (k x : string) (ks : list string) :
  x ∈ add_key k ks <-> x = k \/ x ∈ ks.
Proof.
  unfold add_key. destruct (existsb (String.eqb k) ks) eqn:Hex.
  - apply existsb_exists in Hex as (y & Hy & Heq). apply String.eqb_eq in Heq. subst y.
    apply list_elem_of_In in Hy. split; [auto|]. intros [->|H]; auto.
  - rewrite elem_of_app, list_elem_of_singleton. tauto.
Qed.

Lemma add_key_present (k : string) (ks : list string) : k ∈ ks -> add_key k ks = ks.
Proof.
  intros Hk. unfold add_key.
  assert (existsb (String.eqb k) ks = true) as ->; [|reflexivity].
  apply existsb_exists. exists k. split; [now apply list_elem_of_In|apply String.eqb_refl].
Qed.

Lemma add_key_length (k : string) (ks : list string) :
  length ks <= length (add_key k ks) <= S (length ks).
Proof.
  unfold add_key. destruct (existsb _ ks); rewrite ?length_app; simpl; lia.
Qed.

Lemma update_keys_add (teams : teams_dict) (k : string) (g : Stats -> Stats) :
  map fst (update teams k g) = add_key k (map fst teams).
Proof.
  destruct (update_keys teams k g) as [[Hin ->]|[Hnin ->]].
  - symmetry. now apply add_key_present.
  - unfold add_key.
    assert (existsb (String.eqb k) (map fst teams) = false) as ->; [|reflexivity].
    apply not_true_iff_false. intros (y & Hy & Heq)%existsb_exists.
    apply String.eqb_eq in Heq. subst y. apply Hnin. now apply list_elem_of_In.
Qed.

Lemma record_match_keys (teams : teams_dict) (m : Match) :
  map fst (record_match teams m)
  = add_key (team2 m) (add_key (team1 m) (map fst teams)).
Proof.
  set (ks1 := add_key (team1 m) (map fst teams)).
  set (ks2 := add_key (team2 m) ks1).
  assert (team1 m ∈ ks1) as H1 by (apply add_key_elem; auto).
  assert (team1 m ∈ ks2) as H12 by (apply add_key_elem; auto).
  assert (team2 m ∈ ks2) as H2 by (apply add_key_elem; auto).
  unfold record_match.
  destruct (home_goals m >? away_goals m)%Z; [|destruct (home_goals m <? away_goals m)%Z];
    rewrite !update_keys_add; fold ks1;
    rewrite (add_key_present (team1 m) ks1 H1); fold ks2;
    rewrite (add_key_present (team2 m) ks2 H2);
    repeat first [ rewrite (add_key_present (team1 m) ks2 H12)
                 | rewrite (add_key_present (team2 m) ks2 H2) ];
    reflexivity.
Qed.

Lemma fold_record_match_keys (ms : list Match) (teams : teams_dict) :
  map fst (fold_left record_match ms teams)
  = fold_left (fun ks m => add_key (team2 m) (add_key (team1 m) ks)) ms (map fst teams).
Proof.
  revert teams. induction ms as [|m ms IH]; intros teams; simpl; [reflexivity|].
  now rewrite IH, record_match_keys.
Qed.

Lemma first_seen_fold_elem (ms : list Match) (ks : list string) (t : string) :
  t ∈ fold_left (fun ks m => add_key (team2 m) (add_key (team1 m) ks)) ms ks
  <-> t ∈ ks \/ plays t ms.
Proof.
  revert ks. induction ms as [|m ms IH]; intros ks; simpl.
  - split; [auto|]. intros [H|(m & Hm & _)]; [exact H|inversion Hm].
  - rewrite IH, !add_key_elem. unfold plays. split.
    + intros [[->|[->|H]]|(m' & Hm' & Hside)]; auto.
      * right. exists m. split; [constructor|auto].
      * right. exists m. split; [constructor|auto].
      * right. exists m'. split; [now constructor|auto].
    + intros [H|(m' & Hm' & Hside)]; [auto|].
      apply elem_of_cons in Hm' as [->|Hm'].
      * destruct Hside as [<-|<-]; auto.
      * right. exists m'. auto.
Qed.

Lemma first_seen_fold_length (ms : list Match) (ks : list string) :
  length (fold_left (fun ks m => add_key (team2 m) (add_key (team1 m) ks)) ms ks)
  <= length ks + 2 * length ms.
Proof.
  revert ks. induction ms as [|m ms IH]; intros ks; simpl; [lia|].
  specialize (IH (add_key (team2 m) (add_key (team1 m) ks))).
  pose proof (add_key_length (team1 m) ks).
  pose proof (add_key_length (team2 m) (add_key (team1 m) ks)). lia.
Qed.

(** The rows of a summary before sorting stand in the order of
    [first_seen]. *)
Lemma summary_data_teams (ms : list Match) :
  map team (map build_row (fold_left record_match ms [])) = first_seen ms.
Proof.
  rewrite map_map. unfold first_seen.
  change (@nil string) with (map fst (@nil (string * Stats))).
  rewrite <- (fold_record_match_keys ms []). apply map_ext. now intros [t s].
Qed.

Lemma summary_teams_perm (ms : list Match) (tbl : list Standing) :
  summarise_season ms = Ok tbl -> teams_of tbl ≡ₚ first_seen ms.
Proof.
  intros Hs. pose proof (summary_rows_perm ms tbl Hs) as Hperm.
  rewrite <- summary_data_teams, <- Hperm. unfold teams_of. now rewrite map_map.
Qed.

(** X2 (teams of a summary). A summary has exactly one row for each team
    that is a side of some match, and no other row; it has at least one
    row and at most two per match. *)
Theorem summarise_season_teams (ms : list Match) (tbl : list Standing) :
  summarise_season ms = Ok tbl ->
  NoDup (teams_of tbl) /\
  (forall t, t ∈ teams_of tbl <-> plays t ms) /\
  1 <= length tbl <= 2 * length ms.
Proof.
  intros Hs. pose proof (summary_teams_perm ms tbl Hs) as Hperm.
  split; [now apply summary_teams_NoDup in Hs|]. split.
  - intros t. rewrite Hperm. unfold first_seen. rewrite first_seen_fold_elem.
    split; [intros [H|H]; [inversion H|exact H]|auto].
  - split.
    + pose proof (summary_nonempty ms tbl Hs). destruct tbl; [congruence|simpl; lia].
    + apply Permutation_length in Hperm. unfold teams_of in Hperm.
      rewrite length_map in Hperm. rewrite Hperm. unfold first_seen.
      pose proof (first_seen_fold_length ms []). simpl in *. lia.
Qed.

Lemma summarise_season_teams_witness :
  NoDup (teams_of two_team_first) /\
  (forall t, t ∈ teams_of two_team_first
             <-> plays t [mkMatch "A" "B" (Some "1-0") 1 0]) /\
  1 <= length two_team_first <= 2 * 1.
Proof.
  apply (summarise_season_teams [mkMatch "A" "B" (Some "1-0") 1 0] two_team_first).
  reflexivity.
Defined.

Lemma summarise_season_row_is_tally_witness :
  mkStats 3 1 0 0 1 0 = tally "A" [mkMatch "A" "B" (Some "1-0") 1 0] /\
  1%Z = (sum_over (scored "A") [mkMatch "A" "B" (Some "1-0") 1 0]
         - sum_over (conceded "A") [mkMatch "A" "B" (Some "1-0") 1 0])%Z.
Proof.
  apply (summarise_season_row_is_tally [mkMatch "A" "B" (Some "1-0") 1 0] two_team_first
           (mkStanding (mkRow "A" (mkStats 3 1 0 0 1 0) 1) 1)).
  - reflexivity.
  - constructor.
Defined.

(** ** Season Summarizer: positions *)

Lemma with_position_positions (i : nat) (l : list SummaryRow) :
  map position (with_position i l)
  = map (fun k => (Z.of_nat k + 1)%Z) (seq i (length l)).
Proof.
  revert i. induction l as [|r l IH]; intros i; simpl; [reflexivity|].
  now rewrite IH.
Qed.

(** X3 (positions). The positions of a summary are 1, 2, ..., n in row
    order, and a team with strictly more points than another has the
    strictly smaller position. *)
Theorem summarise_season_positions (ms : list Match) (tbl : list Standing) :
  summarise_season ms = Ok tbl ->
  map position tbl = map (fun k => (Z.of_nat k + 1)%Z) (seq 0 (length tbl)) /\
  (forall r1 r2 : Standing, r1 ∈ tbl -> r2 ∈ tbl ->
     (points (stats r1) > points (stats r2))%Z -> (position r1 < position r2)%Z).
Proof.
  intros Hs. split.
  - pose proof Hs as [_ Heq]%summarise_season_Ok. rewrite Heq at 1.
    rewrite with_position_positions. f_equal. f_equal.
    rewrite Heq. clear. generalize 0 as i.
    induction (sort_values descending _) as [|r l IH]; intros i; simpl; [|rewrite <- IH];
      reflexivity.
  - intros r1 r2 [i Hi]%list_elem_of_lookup [j Hj]%list_elem_of_lookup Hpts.
    rewrite (summary_position ms tbl i r1 Hs Hi), (summary_position ms tbl j r2 Hs Hj).
    assert (i < j); [|lia].
    eapply (summary_order ms tbl i j r1 r2); eauto.
    apply not_true_is_false. unfold sort_key. rewrite lex_leb_spec. lia.
Qed.

Lemma summarise_season_positions_witness :
  map position two_team_first = map (fun k => (Z.of_nat k + 1)%Z) (seq 0 2) /\
  (forall r1 r2 : Standing, r1 ∈ two_team_first -> r2 ∈ two_team_first ->
     (points (stats r1) > points (stats r2))%Z -> (position r1 < position r2)%Z).
Proof.
  apply (summarise_season_positions [mkMatch "A" "B" (Some "1-0") 1 0] two_team_first).
  reflexivity.
Defined.

(** ** Season Summarizer: column totals *)

Lemma summary_total (f : Stats -> Z) (ms : list Match) (tbl : list Standing) :
  summarise_season ms = Ok tbl ->
  sum_Z (map (fun r : Standing => f (stats r)) tbl)
  = total f (fold_left record_match ms []).
Proof.
  intros Hs. pose proof (summary_rows_perm ms tbl Hs) as Hperm.
  transitivity (sum_Z (map (fun r : SummaryRow => f (stats r)) (map row tbl))).
  { rewrite map_map. reflexivity. }
  rewrite (sum_Z_perm _ _ (Permutation_map _ Hperm)), map_map.
  unfold total. f_equal. apply map_ext. now intros [t s].
Qed.

Lemma fold_record_match_total (f : Stats -> Z) (delta : Match -> Z) :
  (forall teams m, total f (record_match teams m) = (total f teams + delta m)%Z) ->
  forall ms teams,
    total f (fold_left record_match ms teams) = (total f teams + sum_over delta ms)%Z.
Proof.
  intros Hstep ms. induction ms as [|m ms IH]; intros teams; simpl.
  - unfold sum_over. simpl. lia.
  - rewrite IH, Hstep. unfold sum_over. simpl. lia.
Qed.

Lemma record_match_totals (teams : teams_dict) (m : Match) :
  total wins (record_match teams m)
    = (total wins teams + ind (negb (home_goals m =? away_goals m)%Z))%Z /\
  total losses (record_match teams m)
    = (total losses teams + ind (negb (home_goals m =? away_goals m)%Z))%Z /\
  total draws (record_match teams m)
    = (total draws teams + 2 * ind (home_goals m =? away_goals m)%Z)%Z /\
  total goals_for (record_match teams m)
    = (total goals_for teams + (home_goals m + away_goals m))%Z /\
  total goals_against (record_match teams m)
    = (total goals_against teams + (home_goals m + away_goals m))%Z.
Proof.
  unfold record_match, ind.
  destruct (Z.gtb_spec (home_goals m) (away_goals m));
    destruct (Z.ltb_spec (home_goals m) (away_goals m));
    destruct (Z.eqb_spec (home_goals m) (away_goals m)); try lia;
    repeat split;
    repeat (erewrite total_update;
            [ | intros ?; cbn; first [reflexivity | symmetry; apply Z.add_0_r]
              | reflexivity ]);
    simpl; lia.
Qed.

Lemma sum_over_decisive (ms : list Match) :
  sum_over (fun m => ind (negb (home_goals m =? away_goals m)%Z)) ms
    = Z.of_nat (decisive ms) /\
  sum_over (fun m => (2 * ind (home_goals m =? away_goals m)%Z)%Z) ms
    = (2 * Z.of_nat (drawn ms))%Z.
Proof.
  unfold sum_over, decisive, drawn, ind.
  induction ms as [|m ms [IH1 IH2]]; [split; reflexivity|].
  cbn [map sum_Z fold_right List.filter].
  change (fold_right Z.add 0%Z) with sum_Z. rewrite IH1, IH2.
  destruct (home_goals m =? away_goals m)%Z; cbn [negb length];
    rewrite ?Nat2Z.inj_succ; lia.
Qed.

Lemma sum_Z_sub {A : Type} (f g : A -> Z) (l : list A) :
  sum_Z (map (fun x => (f x - g x)%Z) l) = (sum_Z (map f l) - sum_Z (map g l))%Z.
Proof. induction l as [|x l IH]; simpl; lia. Qed.

Lemma fold_totals (ms : list Match) :
  total wins (fold_left record_match ms []) = Z.of_nat (decisive ms) /\
  total losses (fold_left record_match ms []) = Z.of_nat (decisive ms) /\
  total draws (fold_left record_match ms []) = (2 * Z.of_nat (drawn ms))%Z /\
  total goals_for (fold_left record_match ms [])
    = sum_over (fun m => (home_goals m + away_goals m)%Z) ms /\
  total goals_against (fold_left record_match ms [])
    = sum_over (fun m => (home_goals m + away_goals m)%Z) ms.
Proof.
  pose proof (sum_over_decisive ms) as [Hdec Hdraw].
  rewrite (fold_record_match_total wins
             (fun m => ind (negb (home_goals m =? away_goals m)%Z))
             (fun d m => proj1 (record_match_totals d m))).
  rewrite (fold_record_match_total losses
             (fun m => ind (negb (home_goals m =? away_goals m)%Z))
             (fun d m => proj1 (proj2 (record_match_totals d m)))).
  rewrite (fold_record_match_total draws
             (fun m => (2 * ind (home_goals m =? away_goals m)%Z)%Z)
             (fun d m => proj1 (proj2 (proj2 (record_match_totals d m))))).
  rewrite (fold_record_match_total goals_for
             (fun m => (home_goals m + away_goals m)%Z)
             (fun d m => proj1 (proj2 (proj2 (proj2 (record_match_totals d m)))))).
  rewrite (fold_record_match_total goals_against
             (fun m => (home_goals m + away_goals m)%Z)
             (fun d m => proj2 (proj2 (proj2 (proj2 (record_match_totals d m)))))).
  rewrite Hdec, Hdraw. unfold total. simpl. repeat split; lia.
Qed.

(** X4 (column totals). Over the rows of a summary, goals scored and goals
    conceded both add up to all goals of the season, goal differences add
    up to zero, wins and losses both add up to the number of decisive
    matches, and draws to twice the number of drawn matches. *)
Theorem summarise_season_totals (ms : list Match) (tbl : list Standing) :
  summarise_season ms = Ok tbl ->
  sum_Z (map (fun r : Standing => goals_for (stats r)) tbl)
    = sum_over (fun m => (home_goals m + away_goals m)%Z) ms /\
  sum_Z (map (fun r : Standing => goals_against (stats r)) tbl)
    = sum_over (fun m => (home_goals m + away_goals m)%Z) ms /\
  sum_Z (map (fun r : Standing => goal_diff r) tbl) = 0%Z /\
  sum_Z (map (fun r : Standing => wins (stats r)) tbl) = Z.of_nat (decisive ms) /\
  sum_Z (map (fun r : Standing => losses (stats r)) tbl) = Z.of_nat (decisive ms) /\
  sum_Z (map (fun r : Standing => draws (stats r)) tbl) = (2 * Z.of_nat (drawn ms))%Z.
Proof.
  intros Hs. destruct (fold_totals ms) as (Hw & Hl & Hd & Hgf & Hga).
  rewrite <- (summary_total wins ms tbl Hs) in Hw.
  rewrite <- (summary_total losses ms tbl Hs) in Hl.
  rewrite <- (summary_total draws ms tbl Hs) in Hd.
  rewrite <- (summary_total goals_for ms tbl Hs) in Hgf.
  rewrite <- (summary_total goals_against ms tbl Hs) in Hga.
  repeat split; try assumption.
  transitivity (sum_Z (map (fun r : Standing =>
                              (goals_for (stats r) - goals_against (stats r))%Z) tbl)).
  - f_equal. apply map_ext_in. intros r Hr%list_elem_of_In.
    now destruct (summary_row_entry ms tbl r Hs Hr).
  - rewrite (sum_Z_sub (fun r : Standing => goals_for (stats r))
                       (fun r : Standing => goals_against (stats r))). lia.
Qed.

Lemma summarise_season_totals_witness :
  sum_Z (map (fun r : Standing => goals_for (stats r)) two_team_first)
    = sum_over (fun m => (home_goals m + away_goals m)%Z)
               [mkMatch "A" "B" (Some "1-0") 1 0] /\
  sum_Z (map (fun r : Standing => goals_against (stats r)) two_team_first)
    = sum_over (fun m => (home_goals m + away_goals m)%Z)
               [mkMatch "A" "B" (Some "1-0") 1 0] /\
  sum_Z (map (fun r : Standing => goal_diff r) two_team_first) = 0%Z /\
  sum_Z (map (fun r : Standing => wins (stats r)) two_team_first)
    = Z.of_nat (decisive [mkMatch "A" "B" (Some "1-0") 1 0]) /\
  sum_Z (map (fun r : Standing => losses (stats r)) two_team_first)
    = Z.of_nat (decisive [mkMatch "A" "B" (Some "1-0") 1 0]) /\
  sum_Z (map (fun r : Standing => draws (stats r)) two_team_first)
    = (2 * Z.of_nat (drawn [mkMatch "A" "B" (Some "1-0") 1 0]))%Z.
Proof.
  apply (summarise_season_totals [mkMatch "A" "B" (Some "1-0") 1 0] two_team_first).
  reflexivity.
Defined.

(** ** Season Summarizer: the order of the matches *)

Lemma sum_over_perm (f : Match -> Z) (ms ms' : list Match) :
  ms ≡ₚ ms' -> sum_over f ms = sum_over f ms'.
Proof. intros H. unfold sum_over. apply sum_Z_perm. now apply Permutation_map. Qed.

Lemma tally_perm (t : string) (ms ms' : list Match) :
  ms ≡ₚ ms' -> tally t ms = tally t ms'.
Proof.
  intros H. unfold tally.
  now rewrite (sum_over_perm (won t) _ _ H), (sum_over_perm (drew t) _ _ H),
    (sum_over_perm (lost t) _ _ H), (sum_over_perm (scored t) _ _ H),
    (sum_over_perm (conceded t) _ _ H).
Qed.

Lemma plays_perm (t : string) (ms ms' : list Match) :
  ms ≡ₚ ms' -> plays t ms -> plays t ms'.
Proof. intros H (m & Hm & Hside). exists m. split; [now rewrite <- H|exact Hside]. Qed.

(** The rows of a summary, position aside, are determined by the match
    list: one row per playing team, holding its tally. *)
Lemma summary_row_spec (ms : list Match) (tbl : list Standing) (x : SummaryRow) :
  summarise_season ms = Ok tbl ->
  (x ∈ map row tbl <->
   plays (team x) ms /\ stats x = tally (team x) ms /\
   goal_diff x = (goals_for (stats x) - goals_against (stats x))%Z).
Proof.
  intros Hs. pose proof (summary_teams_perm ms tbl Hs) as Hperm.
  assert (forall t, t ∈ teams_of tbl <-> plays t ms) as Hplay.
  { intros t. rewrite Hperm. unfold first_seen. rewrite first_seen_fold_elem.
    split; [intros [H|H]; [inversion H|exact H]|auto]. }
  split.
  - intros (r & -> & Hr)%list_elem_of_fmap.
    destruct (summary_row_entry ms tbl r Hs Hr) as [Hst Hgd].
    rewrite fold_record_match_tally in Hst. split; [|auto].
    apply Hplay. apply list_elem_of_fmap. eauto.
  - intros (Hp & Hst & Hgd). apply Hplay in Hp.
    apply list_elem_of_fmap in Hp as (r & Hteam & Hr).
    destruct (summary_row_entry ms tbl r Hs Hr) as [Hst' Hgd'].
    rewrite fold_record_match_tally in Hst'.
    apply list_elem_of_fmap. exists r. split; [|exact Hr].
    destruct x as [t s g], r as [[t' s' g'] p]. simpl in *. subst. reflexivity.
Qed.

Lemma summary_rows_NoDup (ms : list Match) (tbl : list Standing) :
  summarise_season ms = Ok tbl -> NoDup (map row tbl).
Proof.
  intros Hs. apply summary_teams_NoDup in Hs.
  apply (NoDup_fmap_1 team). unfold teams_of in Hs.
  rewrite <- map_map in Hs. exact Hs.
Qed.

(** X5 (order of the matches). Listing the same matches in another order
    changes nothing in a summary but, possibly, the order of its rows and
    with it their positions: the rows with their statistics are the same. *)
Theorem summarise_season_match_order (ms ms' : list Match) (tbl : list Standing) :
  ms ≡ₚ ms' -> summarise_season ms = Ok tbl ->
  exists tbl', summarise_season ms' = Ok tbl' /\ map row tbl ≡ₚ map row tbl'.
Proof.
  intros Hperm Hs.
  assert (exists tbl', summarise_season ms' = Ok tbl') as [tbl' Hs'].
  { eexists. apply summarise_season_Ok. split; [|reflexivity].
    apply summarise_season_Ok in Hs as [Hne _]. intros ->.
    apply Permutation_nil_r in Hperm. contradiction. }
  exists tbl'. split; [exact Hs'|].
  apply NoDup_Permutation; [eapply summary_rows_NoDup; eauto..|].
  intros x. rewrite (summary_row_spec ms tbl x Hs), (summary_row_spec ms' tbl' x Hs').
  rewrite (tally_perm (team x) ms ms' Hperm).
  split; intros (Hp & H); (split; [|exact H]).
  - eapply plays_perm; eauto.
  - eapply plays_perm; [symmetry|]; eauto.
Qed.

Lemma summarise_season_match_order_witness :
  exists tbl',
    summarise_season [mkMatch "B" "A" (Some "1-0") 1 0; mkMatch "A" "B" (Some "2-0") 2 0]
      = Ok tbl' /\
    map row [mkStanding (mkRow "A" (mkStats 3 1 0 1 2 1) 1) 1;
             mkStanding (mkRow "B" (mkStats 3 1 0 1 1 2) (-1)) 2] ≡ₚ map row tbl'.
Proof.
  apply (summarise_season_match_order
           [mkMatch "A" "B" (Some "2-0") 2 0; mkMatch "B" "A" (Some "1-0") 1 0]).
  - apply perm_swap.
  - reflexivity.
Defined.

(** ** Season Summarizer: teams level on all three keys *)

Section Stability.
Context {A : Type} (leb : A -> A -> bool) (P : A -> bool).
Hypothesis P_tied : forall a b, P a = true -> P b = true -> leb a b = true.

Lemma filter_insert_row (x : A) (l : list A) :
  List.filter P (insert_row leb x l) = List.filter P (x :: l).
Proof using P_tied.
  induction l as [|y l IH]; [reflexivity|].
  cbn [insert_row]. destruct (leb x y) eqn:Hxy; [reflexivity|].
  cbn [List.filter]. rewrite IH. cbn [List.filter].
  destruct (P x) eqn:Hx, (P y) eqn:Hy; try reflexivity.
  rewrite (P_tied x y Hx Hy) in Hxy. discriminate.
Qed.

Lemma filter_sort_values (l : list A) :
  List.filter P (sort_values leb l) = List.filter P l.
Proof using P_tied.
  induction l as [|x l IH]; [reflexivity|].
  cbn [sort_values fold_right]. change (fold_right (insert_row leb) []) with (sort_values leb).
  rewrite filter_insert_row. cbn [List.filter]. now rewrite IH.
Qed.
End Stability.

Lemma filter_split {A : Type} (P : A -> bool) (l k1 k2 : list A) (a : A) :
  List.filter P l = k1 ++ a :: k2 ->
  exists l1 l2, l = l1 ++ a :: l2 /\ List.filter P l1 = k1 /\ List.filter P l2 = k2.
Proof.
  revert k1. induction l as [|y l IH]; intros k1 Heq.
  - destruct k1; discriminate.
  - cbn [List.filter] in Heq. destruct (P y) eqn:Hy.
    + destruct k1 as [|z k1]; cbn [app] in Heq.
      * injection Heq as -> <-. exists [], l. auto.
      * injection Heq as -> Heq. destruct (IH k1 Heq) as (l1 & l2 & -> & H1 & H2).
        exists (z :: l1), l2. cbn [List.filter app]. rewrite Hy, H1. auto.
    + destruct (IH k1 Heq) as (l1 & l2 & -> & H1 & H2).
      exists (y :: l1), l2. cbn [List.filter app]. rewrite Hy. auto.
Qed.

Lemma precedes_filter {A : Type} (P : A -> bool) (l : list A) (a b : A) :
  P a = true -> P b = true -> precedes l a b -> precedes (List.filter P l) a b.
Proof.
  intros Ha Hb (l1 & l2 & l3 & ->).
  exists (List.filter P l1), (List.filter P l2), (List.filter P l3).
  rewrite List.filter_app. cbn [List.filter]. rewrite Ha, List.filter_app.
  cbn [List.filter].
  now rewrite Hb.
Qed.

Lemma filter_precedes {A : Type} (P : A -> bool) (l : list A) (a b : A) :
  precedes (List.filter P l) a b -> precedes l a b.
Proof.
  intros (k1 & k2 & k3 & Heq).
  destruct (filter_split P l k1 _ a Heq) as (l1 & l' & -> & _ & Heq').
  destruct (filter_split P l' k2 _ b Heq') as (l2 & l3 & -> & _ & _).
  now exists l1, l2, l3.
Qed.

Lemma NoDup_map_inj_elem {A B : Type} (f : A -> B) (l : list A) (x y : A) :
  NoDup (map f l) -> x ∈ l -> y ∈ l -> f x = f y -> x = y.
Proof.
  induction l as [|z l IH]; intros Hnd Hx Hy Heq; [inversion Hx|].
  simpl in Hnd. apply NoDup_cons in Hnd as [Hz Hnd].
  apply elem_of_cons in Hx as [->|Hx]; apply elem_of_cons in Hy as [->|Hy].
  - reflexivity.
  - exfalso. apply Hz. rewrite Heq. apply list_elem_of_fmap. eauto.
  - exfalso. apply Hz. rewrite <- Heq. apply list_elem_of_fmap. eauto.
  - now apply IH.
Qed.

Lemma precedes_map_inv {A B : Type} (f : A -> B) (l : list A) (x y : A) :
  NoDup (map f l) -> x ∈ l -> y ∈ l ->
  precedes (map f l) (f x) (f y) -> precedes l x y.
Proof.
  intros Hnd Hx Hy (k1 & k2 & k3 & Heq).
  apply map_eq_app in Heq as (l1 & l' & -> & <- & Heq).
  apply map_eq_cons in Heq as (x' & l'' & -> & Hfx & Heq).
  apply map_eq_app in Heq as (l2 & l''' & -> & <- & Heq).
  apply map_eq_cons in Heq as (y' & l3 & -> & Hfy & <-).
  assert (x' = x) as ->.
  { eapply (NoDup_map_inj_elem f); eauto.
    apply elem_of_app. right. constructor. }
  assert (y' = y) as ->.
  { eapply (NoDup_map_inj_elem f); eauto.
    apply elem_of_app. right. constructor. apply elem_of_app. right. constructor. }
  now exists l1, l2, l3.
Qed.

Lemma precedes_lookup {A : Type} (l : list A) (a b : A) (i j : nat) :
  NoDup l -> precedes l a b -> l !! i = Some a -> l !! j = Some b -> i < j.
Proof.
  intros Hnd (l1 & l2 & l3 & ->) Hi Hj.
  assert (i = length l1) as ->.
  { eapply NoDup_lookup; [exact Hnd|exact Hi|]. now rewrite list_lookup_middle. }
  assert (j = length l1 + S (length l2)) as ->; [|lia].
  eapply NoDup_lookup; [exact Hnd|exact Hj|].
  rewrite lookup_app_r by lia. replace (length l1 + S (length l2) - length l1)
    with (S (length l2)) by lia.
  simpl. now rewrite list_lookup_middle.
Qed.

(** X6 (level teams). Of two teams level on points, goal difference and
    goals scored, the one that the match list names first has the smaller
    position. *)
Theorem summarise_season_level_teams (ms : list Match) (tbl : list Standing)
    (r1 r2 : Standing) :
  summarise_season ms = Ok tbl -> r1 ∈ tbl -> r2 ∈ tbl ->
  sort_key r1 = sort_key r2 ->
  precedes (first_seen ms) (team r1) (team r2) ->
  (position r1 < position r2)%Z.
Proof.
  intros Hs [i Hi]%list_elem_of_lookup [j Hj]%list_elem_of_lookup Hkey Hseen.
  set (data := map build_row (fold_left record_match ms [])).
  pose proof (summary_rows_perm ms tbl Hs) as Hperm. fold data in Hperm.
  pose proof (summary_rows_NoDup ms tbl Hs) as Hnd.
  assert (row r1 ∈ data /\ row r2 ∈ data) as [Hd1 Hd2].
  { rewrite <- Hperm. split; apply list_elem_of_fmap; eexists; split; eauto;
      eapply list_elem_of_lookup_2; eauto. }
  assert (precedes data (row r1) (row r2)) as Hdata.
  { apply (precedes_map_inv team); try assumption.
    - unfold data. rewrite summary_data_teams.
      rewrite <- (summary_teams_perm ms tbl Hs). now apply summary_teams_NoDup in Hs.
    - unfold data. now rewrite summary_data_teams. }
  set (P := fun x : SummaryRow => bool_decide (sort_key x = sort_key r1)).
  assert (P (row r1) = true /\ P (row r2) = true) as [HP1 HP2].
  { unfold P. split; apply bool_decide_eq_true; congruence. }
  assert (precedes (map row tbl) (row r1) (row r2)) as Hsorted.
  { apply (filter_precedes P).
    pose proof Hs as [_ ->]%summarise_season_Ok. rewrite with_position_rows.
    fold data. rewrite (filter_sort_values descending P).
    - now apply precedes_filter.
    - intros a b Ha%bool_decide_eq_true Hb%bool_decide_eq_true.
      unfold descending. rewrite Ha, Hb.
      destruct (lex_leb_total (sort_key r1) (sort_key r1)); assumption. }
  rewrite (summary_position ms tbl i r1 Hs Hi), (summary_position ms tbl j r2 Hs Hj).
  assert (i < j); [|lia].
  eapply (precedes_lookup (map row tbl)); eauto;
    rewrite list_lookup_fmap; [rewrite Hi|rewrite Hj]; reflexivity.
Qed.

Lemma summarise_season_level_teams_witness :
  (position (mkStanding (mkRow "C" (mkStats 1 0 1 0 0 0) 0) 1)
   < position (mkStanding (mkRow "A" (mkStats 1 0 1 0 0 0) 0) 2))%Z.
Proof.
  apply (summarise_season_level_teams [mkMatch "C" "A" (Some "0-0") 0 0] two_team_second).
  - reflexivity.
  - constructor.
  - constructor. constructor.
  - reflexivity.
  - exists [], [], []. reflexivity.
Defined.

(** ** Match Parser: splitting on the dash *)

Lemma join_dash_cons (c : ascii) (h : string) (t : list string) :
  join_dash (String c h :: t) = String c (join_dash (h :: t)).
Proof. destruct t; reflexivity. Qed.

Lemma split_dash_no_dash (s : string) :
  Forall (fun seg => no_dash seg = true) (split_dash s).
Proof.
  induction s as [|c s IH]; [repeat constructor|].
  cbn [split_dash]. destruct (Ascii.eqb c "-") eqn:Hc; [now constructor|].
  destruct (split_dash s) as [|h t]; [repeat constructor; cbn [no_dash]; now rewrite Hc|].
  inversion IH as [|? ? Hh Ht]; subst. constructor; [|exact Ht].
  cbn [no_dash]. now rewrite Hc, Hh.
Qed.

(** X7 (split and join). Splitting a text on the dash yields one segment
    more than the text has dashes, none of the segments holds a dash, and
    joining them with dashes gives the text back. *)
Theorem split_dash_join (s : string) :
  join_dash (split_dash s) = s /\
  Forall (fun seg => no_dash seg = true) (split_dash s) /\
  length (split_dash s) = S (count_dash s).
Proof.
  induction s as [|c s (IHj & IHn & IHl)]; [repeat split; repeat constructor|].
  cbn [split_dash count_dash]. destruct (Ascii.eqb c "-") eqn:Hc.
  - apply Ascii.eqb_eq in Hc. subst c. split; [|split].
    + destruct (split_dash_cons s) as (h & t & Heq). rewrite Heq in *.
      change (join_dash (EmptyString :: h :: t)) with (String "-" (join_dash (h :: t))).
      now rewrite IHj.
    + constructor; [reflexivity|exact IHn].
    + cbn [length]. now rewrite IHl.
  - destruct (split_dash_cons s) as (h & t & Heq). rewrite Heq in *. split; [|split].
    + now rewrite join_dash_cons, IHj.
    + inversion IHn as [|? ? Hh Ht]; subst. constructor; [|exact Ht].
      cbn [no_dash]. now rewrite Hc, Hh.
    + exact IHl.
Qed.

(** ** Match Parser: what a parsed table holds *)

Lemma lstrip_no_dash (s : string) : no_dash s = true -> no_dash (lstrip s) = true.
Proof.
  induction s as [|c s IH]; [reflexivity|]. intros H. cbn [lstrip].
  destruct (is_space c); [|exact H].
  cbn [no_dash] in H. apply andb_true_iff in H as [_ H]. now apply IH.
Qed.

Lemma rstrip_no_dash (s : string) : no_dash s = true -> no_dash (rstrip s) = true.
Proof.
  induction s as [|c s IH]; [reflexivity|]. intros H. cbn [rstrip].
  cbn [no_dash] in H. apply andb_true_iff in H as [Hc H]. specialize (IH H).
  destruct (rstrip s) as [|c' t].
  - destruct (is_space c); [reflexivity|]. cbn [no_dash]. now rewrite Hc.
  - cbn [no_dash] in *. now rewrite Hc, IH.
Qed.

Lemma digits_from_nonneg (s : string) (acc z : Z) (flag : bool) :
  (0 <= acc)%Z -> digits_from acc flag s = Some z -> (0 <= z)%Z.
Proof.
  revert acc flag. induction s as [|c s IH]; intros acc flag Hacc; cbn [digits_from].
  - destruct flag; [|discriminate]. intros H. injection H as <-. exact Hacc.
  - destruct (Ascii.eqb c "_").
    + destruct flag; [|discriminate]. now apply IH.
    + destruct (digit_val c) as [d|] eqn:Hd; [|discriminate].
      apply IH. unfold digit_val in Hd.
      destruct (_ && _); [|discriminate]. injection Hd as <-. lia.
Qed.

Lemma py_int_nonneg (s : string) (z : Z) :
  no_dash s = true -> py_int s = Some z -> (0 <= z)%Z.
Proof.
  intros Hs. unfold py_int, strip.
  pose proof (rstrip_no_dash _ (lstrip_no_dash s Hs)) as Hn.
  destruct (rstrip (lstrip s)) as [|c r]; [discriminate|].
  cbn [no_dash] in Hn. apply andb_true_iff in Hn as [Hc _].
  apply negb_true_iff in Hc. rewrite Hc.
  destruct (Ascii.eqb c "+"); apply digits_from_nonneg; lia.
Qed.

Lemma score_goals_range (r : RawRow) (hg ag : Z) :
  score_goals r hg ag -> (0 <= hg <= int64_max)%Z /\ (0 <= ag <= int64_max)%Z.
Proof.
  intros (s & a & b & rest & _ & Hsplit & [Ha Hra] & [Hb Hrb]).
  pose proof (split_dash_no_dash s) as Hnd. rewrite Hsplit in Hnd.
  inversion Hnd as [|? ? Hna Hnd']; subst. inversion Hnd' as [|? ? Hnb _]; subst.
  pose proof (py_int_nonneg a hg Hna Ha). pose proof (py_int_nonneg b ag Hnb Hb). lia.
Qed.

(** X8 (parsed rows). A parsed table has the rows of the raw table, in the
    same order and with the same teams and score text, and every goal count
    in it lies between 0 and the largest int64. *)
Theorem parse_match_results_rows (df : list RawRow) (out : list Match) :
  parse_match_results df = Ok out ->
  length out = length df /\
  forall i r m, df !! i = Some r -> out !! i = Some m ->
    team1 m = raw_team1 r /\ team2 m = raw_team2 r /\ FT m = raw_FT r /\
    (0 <= home_goals m <= int64_max)%Z /\ (0 <= away_goals m <= int64_max)%Z.
Proof.
  intros Hall%parse_match_results_sound. split.
  - symmetry. eapply Forall2_length; eauto.
  - intros i r m Hr Hm.
    destruct (Forall2_lookup_lr _ _ _ _ _ _ Hall Hr Hm) as (hg & ag & Hsc & ->).
    destruct (score_goals_range r hg ag Hsc). cbn. auto.
Qed.

Lemma parse_match_results_rows_witness :
  length [mkMatch "A" "B" (Some "3-1") 3 1] = length [mkRaw "A" "B" (Some "3-1")] /\
  forall i r m,
    [mkRaw "A" "B" (Some "3-1")] !! i = Some r ->
    [mkMatch "A" "B" (Some "3-1") 3 1] !! i = Some m ->
    team1 m = raw_team1 r /\ team2 m = raw_team2 r /\ FT m = raw_FT r /\
    (0 <= home_goals m <= int64_max)%Z /\ (0 <= away_goals m <= int64_max)%Z.
Proof.
  apply (parse_match_results_rows [mkRaw "A" "B" (Some "3-1")]
           [mkMatch "A" "B" (Some "3-1") 3 1]).
  reflexivity.
Defined.

Lemma plain_score_values (r : RawRow) (a b : string) :
  plain_number a -> plain_number b -> raw_FT r = Some (a ++ "-" ++ b)%string ->
  score_goals r (decimal_from 0 a) (decimal_from 0 b).
Proof.
  intros Ha Hb Hft. exists (a ++ "-" ++ b)%string, a, b, [].
  split; [exact Hft|]. split.
  - apply split_dash_plain; [apply Ha|apply Hb].
  - split; now apply plain_number_int64.
Qed.

(** X9 (plain scores). On a table with at least one row whose scores all
    read [<digits>-<digits>], each number of at most 18 digits, the parser
    returns, and the goal counts are the decimal values of the two
    numbers. *)
Theorem parse_match_results_plain_values (df : list RawRow) :
  df <> [] -> Forall plain_score df ->
  exists out,
    parse_match_results df = Ok out /\
    Forall2 (fun r m => exists a b,
               plain_number a /\ plain_number b /\
               raw_FT r = Some (a ++ "-" ++ b)%string /\
               m = augment r (decimal_from 0 a) (decimal_from 0 b))
            df out.
Proof.
  intros Hne Hall.
  assert (exists out,
            Forall2 (fun r m => exists hg ag, score_goals r hg ag /\ m = augment r hg ag)
                    df out /\
            Forall2 (fun r m => exists a b,
                       plain_number a /\ plain_number b /\
                       raw_FT r = Some (a ++ "-" ++ b)%string /\
                       m = augment r (decimal_from 0 a) (decimal_from 0 b))
                    df out) as (out & Hsc & Hval).
  { clear Hne. induction Hall as [|r df (a & b & Ha & Hb & Hft) _ (out & IH1 & IH2)].
    - exists []. split; constructor.
    - exists (augment r (decimal_from 0 a) (decimal_from 0 b) :: out). split.
      + constructor; [|exact IH1]. do 2 eexists. split; [|reflexivity].
        now apply plain_score_values.
      + constructor; [|exact IH2]. exists a, b. auto. }
  exists out. split; [|exact Hval]. now apply parse_match_results_complete.
Qed.

Lemma parse_match_results_plain_values_witness :
  exists out,
    parse_match_results [mkRaw "A" "B" (Some "3-1")] = Ok out /\
    Forall2 (fun r m => exists a b,
               plain_number a /\ plain_number b /\
               raw_FT r = Some (a ++ "-" ++ b)%string /\
               m = augment r (decimal_from 0 a) (decimal_from 0 b))
            [mkRaw "A" "B" (Some "3-1")] out.
Proof.
  apply (parse_match_results_plain_values [mkRaw "A" "B" (Some "3-1")]).
  - discriminate.
  - constructor; [|constructor]. exists "3", "1".
    repeat split; try reflexivity; try discriminate; simpl; lia.
Defined.

(** ** Training Set Builder: shapes *)

Lemma default_features_length (bottom : list Standing) :
  length (default_features bottom) = 7.
Proof. unfold default_features. now rewrite length_map. Qed.

Lemma example_shape (read_csv : reader) (f : string) (prev curr : list Standing)
    (block : list (list Q * Z)) :
  season_summary read_csv f = Ok curr ->
  Forall2 (example_of prev) curr block ->
  Forall (fun ex => length (fst ex) = 7 /\ (1 <= snd ex <= Z.of_nat (length curr))%Z) block.
Proof.
  intros (raw & ms & _ & _ & Hs)%season_summary_Ok Hex.
  apply Forall_forall. intros ex [j Hj]%list_elem_of_lookup.
  destruct (Forall2_lookup_r _ _ _ j ex Hex Hj) as (r & Hr & Hlabel & Hreal & Hdef).
  split.
  - destruct (in_index prev (team r)) eqn:Hin.
    + apply in_index_spec in Hin as (p & Hp & Hteam). now rewrite (Hreal p Hp Hteam).
    + rewrite Hdef; [apply default_features_length|].
      intros p Hp Hteam.
      assert (in_index prev (team r) = true) as Ht by (apply in_index_spec; eauto).
      congruence.
  - rewrite Hlabel, (summary_position ms curr j r Hs Hr).
    apply lookup_lt_Some in Hr. lia.
Qed.

Lemma pair_block_shape (read_csv : reader) (files : list string) (i : nat)
    (block : list (list Q * Z)) :
  pair_block read_csv files i block ->
  Forall (fun ex => length (fst ex) = 7 /\ (1 <= snd ex)%Z) block.
Proof.
  intros (fp & fc & prev & curr & _ & _ & _ & Hcurr & Hex).
  eapply Forall_impl; [eapply example_shape; eauto|].
  intros ex [H1 H2]. split; [exact H1|lia].
Qed.

(** X10 (shapes). The training set has as many labels as feature vectors,
    every feature vector of the training set and of the inference table has
    seven entries, and every label is at least 1. *)
Theorem prepare_training_data_shapes (read_csv : reader) (files : list string)
    (X : list (list Q)) (y : list Z) (latest : list (string * list Q)) :
  prepare_training_data read_csv files = Ok (X, y, latest) ->
  length X = length y /\
  Forall (fun x => length x = 7) X /\
  Forall (fun label => (1 <= label)%Z) y /\
  Forall (fun e => length (snd e) = 7) latest.
Proof.
  intros Hrun. pose proof (prepare_training_data_spec read_csv files) as Hspec.
  rewrite Hrun in Hspec.
  destruct Hspec as (blocks & f_last & last_summary & -> & -> & Hblocks & _ & _ & ->).
  assert (Forall (fun ex : list Q * Z => length (fst ex) = 7 /\ (1 <= snd ex)%Z)
                 (concat blocks)) as Hshape.
  { apply Forall_concat. apply Forall_forall. intros block [k Hk]%list_elem_of_lookup.
    destruct (Forall2_lookup_r _ _ _ k block Hblocks Hk) as (i & _ & Hpair).
    eapply pair_block_shape; eauto. }
  split; [now rewrite !length_map|]. split; [|split].
  - apply Forall_forall. intros x (ex & -> & Hex)%list_elem_of_fmap.
    rewrite Forall_forall in Hshape. now apply Hshape.
  - apply Forall_forall. intros l (ex & -> & Hex)%list_elem_of_fmap.
    rewrite Forall_forall in Hshape. now apply Hshape.
  - apply Forall_app. split; apply Forall_forall.
    + intros e (r & -> & _)%list_elem_of_fmap. reflexivity.
    + intros e (t & -> & _)%list_elem_of_fmap. apply default_features_length.
Qed.

Lemma prepare_training_data_shapes_witness :
  length two_team_X = length two_team_y /\
  Forall (fun x => length x = 7) two_team_X /\
  Forall (fun label => (1 <= label)%Z) two_team_y /\
  Forall (fun e => length (snd e) = 7) two_team_latest.
Proof.
  apply (prepare_training_data_shapes two_team_history ["s1"; "s2"]
           two_team_X two_team_y two_team_latest).
  reflexivity.
Defined.

(** X11 (inference rows). The inference table lists the teams of the most
    recent standing first, in standing order and with their own features,
    and after them only promoted names: at most three rows more than the
    standing has. *)
Theorem prepare_training_data_latest_order (read_csv : reader) (files : list string)
    (X : list (list Q)) (y : list Z) (latest : list (string * list Q)) :
  prepare_training_data read_csv files = Ok (X, y, latest) ->
  exists f_last last_summary,
    last files = Some f_last /\
    season_summary read_csv f_last = Ok last_summary /\
    length last_summary <= length latest <= length last_summary + 3 /\
    (forall i (r : Standing), last_summary !! i = Some r ->
       latest !! i = Some (team r, feature_vector r)) /\
    (forall i e, latest !! i = Some e -> length last_summary <= i -> fst e ∈ promoted).
Proof.
  intros Hrun. pose proof (prepare_training_data_spec read_csv files) as Hspec.
  rewrite Hrun in Hspec.
  destruct Hspec as (blocks & f_last & last_summary & _ & _ & _ & Hlast & Hsum & ->).
  exists f_last, last_summary. split; [exact Hlast|]. split; [exact Hsum|].
  set (known := map (fun r : Standing => (team r, real_features r)) last_summary).
  assert (length known = length last_summary) as Hlen by (unfold known; apply length_map).
  split; [|split].
  - rewrite length_app, length_map, Hlen. unfold newcomers.
    pose proof (filter_length_le
                  (fun t => negb (existsb (String.eqb t) (teams_of last_summary)))
                  promoted) as Hle.
    change (length promoted) with 3 in Hle. lia.
  - intros i r Hr. rewrite lookup_app_l by (rewrite Hlen; eapply lookup_lt_Some; eauto).
    unfold known. rewrite list_lookup_fmap, Hr. reflexivity.
  - intros i e He Hi. rewrite lookup_app_r in He by lia.
    apply list_elem_of_lookup_2 in He. apply list_elem_of_fmap in He as (t & -> & Ht).
    apply newcomers_spec in Ht as [Hp _]. exact Hp.
Qed.

Lemma prepare_training_data_latest_order_witness :
  exists f_last last_summary,
    last ["s1"; "s2"] = Some f_last /\
    season_summary two_team_history f_last = Ok last_summary /\
    length last_summary <= length two_team_latest <= length last_summary + 3.
Proof.
  destruct (prepare_training_data_latest_order two_team_history ["s1"; "s2"]
              two_team_X two_team_y two_team_latest eq_refl)
    as (f_last & last_summary & Hlast & Hsum & Hlen & _).
  exists f_last, last_summary. auto.
Defined.

(** ** Ranking Model: the ranked table *)

Lemma predict_league_table_facts (sort : sorter) (model : Pipeline)
    (features : list (string * list Q)) (out : list Prediction) :
  sorts_by_expected sort ->
  predict_league_table sort model features = Ok out ->
  map pteam out ≡ₚ map fst features /\
  (forall i r, out !! i = Some r -> predicted_rank r = (Z.of_nat i + 1)%Z) /\
  StronglySorted (fun a b => (snd a <= snd b)%Q)
                 (map (fun r => (pteam r, expected r)) out).
Proof.
  intros Hsort (exps & Hexps & ->)%predict_league_table_Ok.
  set (df := combine (map fst features) exps).
  destruct (Hsort df) as [Hperm Hsorted].
  split; [|split].
  - transitivity (map fst (sort df)).
    + rewrite <- (with_rank_pairs 0 (sort df)) at 2. rewrite map_map. reflexivity.
    + rewrite Hperm. unfold df. now rewrite (combine_fst_Forall2 _ _ _ _ Hexps).
  - intros i r Hi. now apply with_rank_lookup in Hi as [_ Hr].
  - now rewrite with_rank_pairs.
Qed.

(** X12 (the ranked table). On every sort that keeps the promise of
    [sort_values], the table that [predict_league_table] returns holds each
    team of the feature table once, beside the expected position computed
    from that team's own feature row; its rows stand in ascending order of
    expected position, and [predicted_rank] numbers them 1, 2, ..., N from
    the top.  Which of two teams with equal expected position comes first
    is left to the sort. *)
Theorem predict_league_table_ranking (sort : sorter) (model : Pipeline)
    (features : list (string * list Q)) (out : list Prediction) :
  sorts_by_expected sort ->
  predict_league_table sort model features = Ok out ->
  (exists exps,
     Forall2 (fun f e =>
                expected_position (predict_proba model (snd f)) (classes_ model) = Ok e)
             features exps /\
     map (fun r => (pteam r, expected r)) out ≡ₚ combine (map fst features) exps) /\
  (forall i r, out !! i = Some r ->
     i < length features /\ predicted_rank r = (Z.of_nat i + 1)%Z) /\
  (forall i j r1 r2, out !! i = Some r1 -> out !! j = Some r2 -> i < j ->
     (expected r1 <= expected r2)%Q).
Proof.
  intros Hsort (exps & Hexps & ->)%predict_league_table_Ok.
  set (df := combine (map fst features) exps).
  destruct (Hsort df) as [Hperm Hsorted].
  assert (map (fun r => (pteam r, expected r)) (with_rank 0 (sort df)) ≡ₚ df) as Hpairs.
  { now rewrite with_rank_pairs. }
  split; [exists exps; split; [exact Hexps|exact Hpairs]|]. split.
  - intros i r Hi. split.
    + apply lookup_lt_Some in Hi.
      rewrite <- (length_map (fun r => (pteam r, expected r))) in Hi.
      rewrite (Permutation_length Hpairs) in Hi. unfold df in Hi.
      rewrite length_combine, length_map, <- (Forall2_length _ _ _ Hexps) in Hi. lia.
    + apply with_rank_lookup in Hi as [_ Hr]. exact Hr.
  - intros i j r1 r2 Hi Hj Hlt.
    apply with_rank_lookup in Hi as [Hi _]. apply with_rank_lookup in Hj as [Hj _].
    apply (StronglySorted_lookup _ _ Hsorted i j _ _ Hi Hj Hlt).
Qed.

Lemma predict_league_table_ranking_witness :
  (exists exps,
     Forall2 (fun f e =>
                expected_position (predict_proba (mkPipeline (fun x => x) [1%Z; 2%Z]) (snd f))
                                  (classes_ (mkPipeline (fun x => x) [1%Z; 2%Z])) = Ok e)
             [("A", [0; 1]%Q); ("B", [1; 0]%Q)] exps /\
     map (fun r => (pteam r, expected r))
         [mkPrediction 1 "B" 1; mkPrediction 2 "A" 2]
     ≡ₚ combine (map fst [("A", [0; 1]%Q); ("B", [1; 0]%Q)]) exps) /\
  (forall i r, [mkPrediction 1 "B" 1; mkPrediction 2 "A" 2] !! i = Some r ->
     i < length [("A", [0; 1]%Q); ("B", [1; 0]%Q)] /\
     predicted_rank r = (Z.of_nat i + 1)%Z) /\
  (forall i j r1 r2,
     [mkPrediction 1 "B" 1; mkPrediction 2 "A" 2] !! i = Some r1 ->
     [mkPrediction 1 "B" 1; mkPrediction 2 "A" 2] !! j = Some r2 -> i < j ->
     (expected r1 <= expected r2)%Q).
Proof.
  apply (predict_league_table_ranking stable_sort
           (mkPipeline (fun x => x) [1%Z; 2%Z])
           [("A", [0; 1]%Q); ("B", [1; 0]%Q)]
           [mkPrediction 1 "B" 1; mkPrediction 2 "A" 2]).
  - exact stable_sort_sorts.
  - reflexivity.
Defined.

Lemma dot_zeros (n : nat) (classes : list Z) : (dot (repeat 0%Q n) classes == 0)%Q.
Proof.
  revert classes. induction n as [|n IH]; intros [|c classes]; simpl; try reflexivity.
  rewrite IH. ring.
Qed.

Lemma one_hot_length (k n : nat) : length (one_hot k n) = n.
Proof.
  revert k. induction n as [|n IH]; intros [|k]; simpl; try reflexivity.
  - now rewrite repeat_length.
  - now rewrite IH.
Qed.

(** X13 (a certain prediction). When the model puts all probability on one
    class, the expected position is that class label. *)
Theorem expected_position_one_hot (k : nat) (classes : list Z) (c : Z) :
  classes !! k = Some c ->
  exists e, expected_position (one_hot k (length classes)) classes = Ok e /\
            (e == inject_Z c)%Q.
Proof.
  intros Hk. unfold expected_position. rewrite one_hot_length, Nat.eqb_refl.
  eexists. split; [reflexivity|].
  revert k Hk. induction classes as [|c' classes IH]; intros k Hk; [discriminate|].
  destruct k as [|k]; simpl in *.
  - injection Hk as ->. rewrite dot_zeros. ring.
  - rewrite (IH k Hk). ring.
Qed.

Lemma expected_position_one_hot_witness :
  exists e, expected_position (one_hot 1 (length [1; 2; 3]%Z)) [1; 2; 3]%Z = Ok e /\
            (e == inject_Z 2)%Q.
Proof. apply (expected_position_one_hot 1 [1; 2; 3]%Z 2). reflexivity. Defined.

(** ** Driver *)

Lemma main_Ok (path_join : string -> string) (read_csv : reader) (fit : trainer)
    (sort : sorter) (out : list Prediction) :
  main path_join read_csv fit sort = Ok out ->
  exists X y latest model predictions,
    prepare_training_data read_csv (map path_join season_names) = Ok (X, y, latest) /\
    fit X y = Ok model /\
    predict_league_table sort model latest = Ok predictions /\
    out = firstn 20 predictions.
Proof.
  unfold main, mbind, result_bind.
  destruct (prepare_training_data read_csv (map path_join season_names))
    as [[[X y] latest]|] eqn:Hprep; [|discriminate].
  destruct (fit X y) as [model|] eqn:Hfit; [|discriminate].
  destruct (predict_league_table sort model latest) as [predictions|] eqn:Hpred;
    [|discriminate].
  intros H. injection H as <-. exists X, y, latest, model, predictions. auto.
Qed.

Lemma latest_names_NoDup (last_summary : list Standing) :
  NoDup (teams_of last_summary) ->
  NoDup (teams_of last_summary ++ newcomers last_summary).
Proof.
  intros Hnd. apply NoDup_app. split; [exact Hnd|]. split; [|apply newcomers_NoDup].
  intros t Ht Hnew. apply newcomers_spec in Hnew as [_ Hnot]. contradiction.
Qed.

Lemma latest_names (last_summary : list Standing) :
  map fst (map (fun r : Standing => (team r, real_features r)) last_summary ++
           map (fun t => (t, default_features (bottom_three last_summary)))
               (newcomers last_summary))
  = teams_of last_summary ++ newcomers last_summary.
Proof. rewrite map_app, !map_map. cbn [fst]. now rewrite map_id. Qed.

(** X14 (the printed table). The table [main] prints has the 20 best-ranked
    candidates, or all of them when there are fewer: the teams of the
    2023-24 standing and the promoted names missing from it.  Its ranks
    run 1, 2, ... without gap and no team occurs twice. *)
Theorem main_top_twenty (path_join : string -> string) (read_csv : reader)
    (fit : trainer) (sort : sorter) (out : list Prediction) :
  sorts_by_expected sort ->
  main path_join read_csv fit sort = Ok out ->
  exists last_summary,
    season_summary read_csv (path_join "eng1_2023-24.csv") = Ok last_summary /\
    length out = Nat.min 20 (length last_summary + length (newcomers last_summary)) /\
    (forall i r, out !! i = Some r -> predicted_rank r = (Z.of_nat i + 1)%Z) /\
    NoDup (map pteam out) /\
    (forall r, r ∈ out -> pteam r ∈ teams_of last_summary \/ pteam r ∈ promoted).
Proof.
  intros Hsort (X & y & latest & model & predictions & Hprep & _ & Hpred & ->)%main_Ok.
  pose proof (prepare_training_data_spec read_csv (map path_join season_names)) as Hspec.
  rewrite Hprep in Hspec.
  destruct Hspec as (blocks & f_last & last_summary & _ & _ & _ & Hlast & Hsum & ->).
  cbn in Hlast. injection Hlast as <-.
  destruct (predict_league_table_facts _ _ _ _ Hsort Hpred) as (Hteams & Hranks & _).
  rewrite latest_names in Hteams.
  destruct (season_summary_NoDup _ _ _ Hsum) as [Hnd _].
  exists last_summary. split; [exact Hsum|]. split; [|split; [|split]].
  - rewrite length_take. apply Permutation_length in Hteams.
    rewrite length_map, length_app in Hteams. unfold teams_of in Hteams.
    rewrite length_map in Hteams. lia.
  - intros i r Hi. apply lookup_take_Some in Hi as [Hi _]. now apply Hranks.
  - rewrite <- firstn_map. eapply sublist_NoDup; [|apply sublist_take].
    rewrite Hteams. now apply latest_names_NoDup.
  - intros r Hr%elem_of_take. destruct Hr as (i & Hi & _).
    assert (pteam r ∈ map pteam predictions) as Hin.
    { apply list_elem_of_fmap. exists r. split; [reflexivity|].
      eapply list_elem_of_lookup_2; eauto. }
    rewrite Hteams in Hin. apply elem_of_app in Hin as [Hin|Hin]; [now left|].
    right. now apply newcomers_spec in Hin as [Hp _].
Qed.

Lemma main_top_twenty_witness :
  exists last_summary,
    season_summary (fun _ => Ok [mkRaw "A" "B" (Some "1-0")]) "./eng1_2023-24.csv"
      = Ok last_summary /\
    length [mkPrediction 1 "A" 1; mkPrediction 2 "B" 1; mkPrediction 3 "Leeds United" 1;
            mkPrediction 4 "Burnley" 1; mkPrediction 5 "Sunderland" 1]
    = Nat.min 20 (length last_summary + length (newcomers last_summary)).
Proof.
  destruct (main_top_twenty (fun name => "./" ++ name)%string
              (fun _ => Ok [mkRaw "A" "B" (Some "1-0")])
              (fun _ _ => Ok (mkPipeline (fun _ => [1%Q]) [1%Z]))
              stable_sort
              [mkPrediction 1 "A" 1; mkPrediction 2 "B" 1;
               mkPrediction 3 "Leeds United" 1; mkPrediction 4 "Burnley" 1;
               mkPrediction 5 "Sunderland" 1]
              stable_sort_sorts eq_refl)
    as (last_summary & Hsum & Hlen & _).
  exists last_summary. split; [exact Hsum|exact Hlen].
Defined.



(** X16 (missing season). When one of the six season files cannot be read,
    parsed or summarised, [main] raises whatever the trainer and the sort
    are: nothing is trained and nothing is printed. *)
Theorem main_season_failure (path_join : string -> string) (read_csv : reader)
    (name : string) (e : exn) :
  name ∈ season_names ->
  season_summary read_csv (path_join name) = Raise e ->
  exists e', forall (fit : trainer) (sort : sorter),
    main path_join read_csv fit sort = Raise e'.
Proof.
  intros Hname He.
  assert (exists e', prepare_training_data read_csv (map path_join season_names)
                     = Raise e') as [e' Hprep].
  { unfold prepare_training_data.
    pose proof (load_seasons_spec read_csv (map path_join season_names) ∅) as Hload.
    destruct (load_seasons read_csv (map path_join season_names) ∅) as [m|e0];
      [|now exists e0].
    destruct Hload as [Hm _]. destruct (Hm (path_join name)) as (s & Hs & _).
    - apply list_elem_of_fmap. eauto.
    - congruence. }
  exists e'. intros fit sort. unfold main. now rewrite Hprep.
Qed.

Lemma main_season_failure_witness :
  exists e', forall (fit : trainer) (sort : sorter),
    main (fun name => name) (fun _ => Raise FileNotFoundError) fit sort = Raise e'.
Proof.
  apply (main_season_failure (fun name => name) (fun _ => Raise FileNotFoundError)
           "eng1_2018-19.csv" FileNotFoundError).
  - constructor.
  - reflexivity.
Defined.

(** ** Training Set Builder: how low the default is *)

Lemma mean_le (col : list Z) (bound : Z) :
  col <> [] -> Forall (fun x => (x <= bound)%Z) col -> (mean col <= inject_Z bound)%Q.
Proof.
  intros Hne Hall. unfold mean.
  assert (sum_Z col <= bound * Z.of_nat (length col))%Z as Hsum.
  { clear Hne. induction Hall as [|x l Hx _ IH]; simpl length; simpl sum_Z; [lia|].
    rewrite Nat2Z.inj_succ. lia. }
  apply Qle_shift_div_r.
  - change 0%Q with (inject_Z 0). rewrite <- Zlt_Qlt. destruct col; [congruence|].
    simpl length. lia.
  - rewrite <- inject_Z_mult, <- Zle_Qle. exact Hsum.
Qed.

(** X17 (the default is low). The points credited to a promoted team by the
    default features never exceed the points of a team of the reference
    season that is not among its bottom three. *)
Theorem default_features_points (summary : list Standing) (r : Standing) :
  r ∈ summary -> r ∉ bottom_three summary ->
  exists pts others,
    default_features (bottom_three summary) = pts :: others /\
    (pts <= inject_Z (points (stats r)))%Q.
Proof.
  intros Hr Hnot. destruct (bottom_three_lowest summary) as (Hperm & Hlen & Hlow).
  assert (r ∈ skipn 3 (sort_values ascending summary)) as Hrest.
  { rewrite Hperm in Hr. apply elem_of_app in Hr as [Hr|Hr]; [contradiction|exact Hr]. }
  eexists. eexists. split; [reflexivity|].
  apply mean_le.
  - intros Hnil. apply map_eq_nil in Hnil. rewrite Hnil in Hlen. simpl in Hlen.
    destruct summary; [inversion Hr|simpl in Hlen; lia].
  - apply Forall_forall. intros x (b & -> & Hb)%list_elem_of_fmap.
    specialize (Hlow b r Hb Hrest). unfold sort_key in Hlow.
    apply lex_leb_spec in Hlow. lia.
Qed.

Lemma default_features_points_witness :
  exists pts others,
    default_features
      (bottom_three
         [mkStanding (mkRow "D" (mkStats 9 3 0 0 9 0) 9) 1;
          mkStanding (mkRow "C" (mkStats 4 1 1 0 5 2) 3) 2;
          mkStanding (mkRow "A" (mkStats 4 1 1 0 3 2) 1) 3;
          mkStanding (mkRow "B" (mkStats 0 0 0 2 0 4) (-4)) 4]) = pts :: others /\
    (pts <= inject_Z 9)%Q.
Proof.
  apply (default_features_points
           [mkStanding (mkRow "D" (mkStats 9 3 0 0 9 0) 9) 1;
            mkStanding (mkRow "C" (mkStats 4 1 1 0 5 2) 3) 2;
            mkStanding (mkRow "A" (mkStats 4 1 1 0 3 2) 1) 3;
            mkStanding (mkRow "B" (mkStats 0 0 0 2 0 4) (-4)) 4]
           (mkStanding (mkRow "D" (mkStats 9 3 0 0 9 0) 9) 1)).
  - constructor.
  - intros H. vm_compute in H.
    repeat (apply elem_of_cons in H as [H|H]; [discriminate|]). inversion H.
Defined.
